(** * vadcondense: the condense pipeline and the batch loop

    A shallow embedding of [internal/vad] ([decodeToFloat32],
    [CondenseWithOptions]) and of [App.CondenseFiles], together with the
    parts of the Go library they call ([strings], [path/filepath] on a
    slash-separated file system, [fmt]'s [%.2f] and [%d] verbs) and a
    reader of the filter text the encoder is given.

    Go strings are byte sequences: [string].  A [float64] is a
    [spec_float] (IEEE 754 binary64 without NaN payloads), a Go [int] is a
    [Z], an [error] is an optional message. *)

From Stdlib Require Import List String Ascii ZArith QArith Qabs Qpower Lia Lqa Bool.
From Stdlib Require Import DecimalString DecimalN SpecFloat.
Import ListNotations.

Local Open Scope list_scope.
Local Open Scope string_scope.

(** ** Go's [strings] package *)

Module strings.

(** [strings.HasSuffix(s, suffix)] *)
Definition HasSuffix (s suffix : string) : bool :=
  (String.length suffix <=? String.length s)%nat
  && String.eqb
       (substring (String.length s - String.length suffix)
                  (String.length suffix) s)
       suffix.

(** [strings.TrimSuffix(s, suffix)] *)
Definition TrimSuffix (s suffix : string) : string :=
  if HasSuffix s suffix
  then substring 0 (String.length s - String.length suffix) s
  else s.

(** [strings.Join(elems, sep)] *)
Definition Join (elems : list string) (sep : string) : string :=
  String.concat sep elems.

End strings.

(** ** Go's [path/filepath] package, for [Separator = '/'] and no volume
    names *)

Module filepath.

Definition IsPathSeparator (c : ascii) : bool := Ascii.eqb c "/"%char.

Definition chars := list_ascii_of_string.
Definition str := string_of_list_ascii.

(** The slash-separated elements of a path, empty ones included. *)
Fixpoint elements (s : string) : list string :=
  match s with
  | EmptyString => [EmptyString]
  | String c s' =>
      if IsPathSeparator c then EmptyString :: elements s'
      else match elements s' with
           | e :: es => String c e :: es
           | [] => [String c EmptyString]
           end
  end.

(** One element of [Clean]'s scan; [out] holds the elements written so
    far, last one first.  A [..] removes the element before it, unless
    there is none or it is itself a kept [..]; a rooted path drops the
    [..] it cannot apply. *)
Definition clean_step (rooted : bool) (out : list string) (e : string)
  : list string :=
  if String.eqb e "" || String.eqb e "." then out
  else if String.eqb e ".." then
    match out with
    | top :: rest =>
        if String.eqb top ".." then e :: out else rest
    | [] => if rooted then [] else [e]
    end
  else e :: out.

(** [filepath.Clean(path)] *)
Definition Clean (path : string) : string :=
  match path with
  | EmptyString => "."
  | String c _ =>
      let rooted := IsPathSeparator c in
      let out := fold_left (clean_step rooted) (elements path) [] in
      let body := String.concat "/" (rev out) in
      if rooted then String "/" body
      else if String.eqb body "" then "." else body
  end.

(** [filepath.Join(elem...)]: the elements from the first non-empty one
    on, joined by the separator and cleaned. *)
Fixpoint Join (elem : list string) : string :=
  match elem with
  | [] => ""
  | e :: rest =>
      if String.eqb e "" then Join rest
      else Clean (strings.Join elem "/")
  end.

(** The bytes of a path are scanned from its end: these work on the
    reversed byte list. *)
Fixpoint strip_seps (r : list ascii) : list ascii :=
  match r with
  | c :: r' => if IsPathSeparator c then strip_seps r' else r
  | [] => []
  end.

Fixpoint last_elem (r : list ascii) : list ascii :=
  match r with
  | c :: r' => if IsPathSeparator c then [] else c :: last_elem r'
  | [] => []
  end.

Fixpoint drop_last_elem (r : list ascii) : list ascii :=
  match r with
  | c :: r' => if IsPathSeparator c then r else drop_last_elem r'
  | [] => []
  end.

(** [filepath.Base(path)] *)
Definition Base (path : string) : string :=
  match path with
  | EmptyString => "."
  | _ =>
      match last_elem (strip_seps (rev (chars path))) with
      | [] => "/"
      | e => str (rev e)
      end
  end.

(** [filepath.Dir(path)] *)
Definition Dir (path : string) : string :=
  Clean (str (rev (drop_last_elem (rev (chars path))))).

(** [Ext]'s loop: [seen] is the part of the path after position [i]. *)
Fixpoint ext_scan (r : list ascii) (seen : list ascii) : list ascii :=
  match r with
  | [] => []
  | c :: r' =>
      if IsPathSeparator c then []
      else if Ascii.eqb c "."%char then c :: seen
      else ext_scan r' (c :: seen)
  end.

(** [filepath.Ext(path)] *)
Definition Ext (path : string) : string :=
  str (ext_scan (rev (chars path)) []).

End filepath.

(** ** Go's [fmt] verbs used by the pipeline *)

Module fmt.

(** [%d] of a non-negative integer. *)
Definition dec (n : Z) : string :=
  NilZero.string_of_uint (N.to_uint (Z.to_N n)).

(** [%d] *)
Definition Sprintf_d (n : Z) : string :=
  if (n <? 0)%Z then "-" ++ dec (- n) else dec n.

Definition digit (n : Z) : ascii :=
  ascii_of_nat (48 + Z.to_nat n).

(** [m * 2^e], in hundredths, rounded to the nearest integer, ties to
    even: what [strconv] keeps of a finite value at precision 2. *)
Definition hundredths (m : positive) (e : Z) : Z :=
  match e with
  | Zneg p =>
      let num := (100 * Zpos m)%Z in
      let den := (2 ^ Zpos p)%Z in
      let q := (num / den)%Z in
      let r := (num mod den)%Z in
      match (2 * r ?= den)%Z with
      | Lt => q
      | Gt => (q + 1)%Z
      | Eq => if Z.even q then q else (q + 1)%Z
      end
  | _ => (100 * Zpos m * 2 ^ e)%Z
  end.

(** A count of hundredths as a decimal numeral with two fractional
    digits. *)
Definition fixed2 (n : Z) : string :=
  dec (n / 100)
  ++ String "."%char
       (String (digit ((n / 10) mod 10)) (String (digit (n mod 10)) "")).

Definition sign (s : bool) : string := if s then "-" else "".

(** [%.2f] of a [float64] *)
Definition Sprintf_2f (x : spec_float) : string :=
  match x with
  | S754_nan => "NaN"
  | S754_infinity s => if s then "-Inf" else "+Inf"
  | S754_zero s => sign s ++ "0.00"
  | S754_finite s m e => sign s ++ fixed2 (hundredths m e)
  end.

End fmt.

(** ** Floating-point values *)

(** [float64(n)] for an integer [n], and the dyadic [n * 2^e]: canonical
    binary64 values for the examples. *)
Definition f64 (n e : Z) : spec_float := binary_normalize 53 1024 n e false.

(** [float32(x)] for a [float64] [x]: rounding to nearest, ties to even. *)
Definition float32_of_float64 (x : spec_float) : spec_float :=
  match x with
  | S754_finite s m e => binary_normalize 24 128 (cond_Zopp s (Zpos m)) e s
  | _ => x
  end.

(** [math.Float32frombits]: the [float32] with the given IEEE 754 bits. *)
Definition Float32frombits (b : Z) : spec_float :=
  let s := Z.testbit b 31 in
  let ex := Z.land (Z.shiftr b 23) 255 in
  let mant := Z.land b 8388607 in
  if (ex =? 255)%Z then
    if (mant =? 0)%Z then S754_infinity s else S754_nan
  else if (ex =? 0)%Z then
    match mant with
    | Zpos m => S754_finite s m (-149)
    | _ => S754_zero s
    end
  else
    match (mant + 8388608)%Z with
    | Zpos m => S754_finite s m (ex - 150)
    | _ => S754_zero s
    end.

Definition is_finite (x : spec_float) : bool :=
  match x with
  | S754_zero _ | S754_finite _ _ _ => true
  | _ => false
  end.

(** The real number a finite float stands for, as a rational. *)
Definition SF2Q (x : spec_float) : Q :=
  match x with
  | S754_finite s m e =>
      let v := (inject_Z (Zpos m) * Qpower 2 e)%Q in
      if s then Qopp v else v
  | _ => 0%Q
  end.

(** ** Data of the detector library and of the application *)

(** [speech.Segment] *)
Record Segment := { SpeechStartAt : spec_float; SpeechEndAt : spec_float }.

(** A Go [error]: [None] is [nil], [Some msg] an error whose [Error()] is
    [msg]. *)
Definition error := option string.

(** The writers and levels a [slog] text handler is built from, and the
    loggers that can be the process-wide default. *)
Inductive Writer := Stderr | Discard.
Inductive Level := LevelDebug | LevelInfo | LevelWarn | LevelError.
Inductive Logger :=
| InitialLogger
| TextLogger (w : Writer) (level : option Level).

(** [CondenseProgress] *)
Record CondenseProgress :=
  { FilePath : string; Status : string; Error : string }.

(** [CondenseOptions] *)
Record CondenseOptions :=
  { OutputSuffix : string;
    OutputDir : string;
    OutputFormat : string;
    VadThreshold : spec_float;
    MinSilenceDuration : Z;
    SpeechPaddingMs : Z }.

(** What the program does to the world outside it, in order. *)
Inductive Action :=
| AEmit (eventName : string) (data : CondenseProgress)
| ARun (name : string) (args : list string)
| ACombinedOutput (name : string) (args : list string)
| ANewDetector
| ADetect (lg : Logger)
| ADestroy.

(** [binary.Read(reader, binary.LittleEndian, &samples[i])] on the bytes
    left in the reader. *)
Inductive ReadResult :=
| ReadOk (v : spec_float) (rest : list ascii)
| ReadEOF
| ReadErr (msg : string).

Definition le32 (b0 b1 b2 b3 : ascii) : Z :=
  Z.lor (Z.of_nat (nat_of_ascii b0))
    (Z.lor (Z.shiftl (Z.of_nat (nat_of_ascii b1)) 8)
       (Z.lor (Z.shiftl (Z.of_nat (nat_of_ascii b2)) 16)
              (Z.shiftl (Z.of_nat (nat_of_ascii b3)) 24))).

Definition binary_Read (data : list ascii) : ReadResult :=
  match data with
  | [] => ReadEOF
  | b0 :: b1 :: b2 :: b3 :: rest =>
      ReadOk (Float32frombits (le32 b0 b1 b2 b3)) rest
  | _ => ReadErr "unexpected EOF"
  end.

(** The read loop of [decodeToFloat32], from sample [i] on, with [n]
    samples to go: [io.EOF] leaves the remaining samples at zero, another
    error is returned with no samples. *)
Fixpoint read_samples (n : nat) (i : Z) (data : list ascii)
  : list spec_float * error :=
  match n with
  | O => ([], None)
  | S n' =>
      match binary_Read data with
      | ReadOk v rest =>
          match read_samples n' (i + 1) rest with
          | (vs, None) => (v :: vs, None)
          | (_, Some e) => ([], Some e)
          end
      | ReadEOF => (repeat (S754_zero false) n, None)
      | ReadErr msg =>
          ([], Some ("failed to read sample " ++ fmt.Sprintf_d i ++ ": " ++ msg))
      end
  end.

(** ** The filter expression and the output name *)

(** [fmt.Sprintf("between(t,%.2f,%.2f)", s.SpeechStartAt, s.SpeechEndAt)] *)
Definition cut (s : Segment) : string :=
  "between(t," ++ fmt.Sprintf_2f (SpeechStartAt s) ++ ","
  ++ fmt.Sprintf_2f (SpeechEndAt s) ++ ")".

(** The [cuts] slice filled by the loop over [segments]. *)
Definition cuts (segments : list Segment) : list string := map cut segments.

(** [af] *)
Definition af (segments : list Segment) : string :=
  "aselect='" ++ strings.Join (cuts segments) "+" ++ "',asetpts=N/SR/TB".

(** [outName] *)
Definition outName (inFile outDir outSuffix outFormat : string) : string :=
  let ext := filepath.Ext inFile in
  let baseName := filepath.Base inFile in
  let inDir := filepath.Dir inFile in
  let outDir := if String.eqb outDir "" then inDir else outDir in
  filepath.Join
    [outDir; strings.TrimSuffix baseName ext ++ outSuffix ++ "." ++ outFormat].

(** The arguments of the two [ffmpeg] runs. *)
Definition decode_args (inFile : string) (sampleRate : Z) : list string :=
  ["-i"; inFile; "-f"; "f32le"; "-acodec"; "pcm_f32le"; "-ac"; "1";
   "-ar"; fmt.Sprintf_d sampleRate; "-"].

Definition export_args (inFile af outName : string) : list string :=
  ["-y"; "-i"; inFile; "-vn"; "-af"; af; outName].

Definition sampleRate : Z := 16000.

(** ** The program, over a world of external collaborators *)

Section Pipeline.

(** The state of everything outside the process: the file system, the
    [ffmpeg] binary, the model session. *)
Variable World : Type.

(** The process state: the world, [slog]'s default logger and the log of
    what was done so far.  Log output itself is not modelled. *)
Record St :=
  { world : World; defaultLogger : Logger; trace : list Action }.

(** A computation: it runs from a state to a result and a state, or
    panics ([None]) on the call of a nil func value. *)
Definition M (A : Type) : Type := St -> option (A * St).

Definition ret {A} (a : A) : M A := fun st => Some (a, st).

Definition bind {A B} (m : M A) (k : A -> M B) : M B :=
  fun st =>
    match m st with
    | Some (a, st') => k a st'
    | None => None
    end.

Notation "x <- c1 ;; c2" := (bind c1 (fun x => c2))
  (at level 61, c1 at next level, right associativity).
Notation "' pat <- c1 ;; c2" :=
  (bind c1 (fun x => match x with pat => c2 end))
  (at level 61, pat pattern, c1 at next level, right associativity).
Notation "c1 ;;; c2" := (bind c1 (fun _ => c2))
  (at level 61, right associativity).

(** A func value: [None] is nil. *)
Definition func (A : Type) : Type := option (A -> St -> St).

(** The call [f(a)]. *)
Definition call {A} (f : func A) (a : A) : M unit :=
  fun st =>
    match f with
    | Some g => Some (tt, g a st)
    | None => None
    end.

Definition StatusCallback : Type := func string.

(** [speech.DetectorConfig] *)
Record DetectorConfig :=
  { ModelPath : string;
    SampleRate : Z;
    Threshold : spec_float;
    MinSilenceDurationMs : Z;
    SpeechPadMs : Z;
    ProgressCallback : func spec_float }.

(** The collaborators.  [exec_Run] gives the error, the standard output
    and the standard error of a command; [exec_CombinedOutput] its
    combined output and error; [speech_Detect] the progress values the
    detector reports while it runs and then its result, under the
    default logger of that moment. *)
Variable exec_Run :
  string -> list string -> World -> error * string * string * World.
Variable exec_CombinedOutput :
  string -> list string -> World -> string * error * World.
Variable speech_NewDetector : DetectorConfig -> World -> error * World.
Variable speech_Detect :
  Logger -> DetectorConfig -> list spec_float -> World ->
  list spec_float * (list Segment * error) * World.

Definition act (a : Action) (w : World) : M unit :=
  fun st =>
    Some (tt, {| world := w;
                 defaultLogger := defaultLogger st;
                 trace := (trace st ++ [a])%list |}).

(** [slog.Default()] and [slog.SetDefault(l)] *)
Definition slog_Default : M Logger := fun st => Some (defaultLogger st, st).

Definition slog_SetDefault (l : Logger) : M unit :=
  fun st =>
    Some (tt, {| world := world st; defaultLogger := l; trace := trace st |}).

(** [decodeToFloat32] *)
Definition decodeToFloat32 (inFile : string) (sampleRate : Z)
  : M (list spec_float * error) :=
  fun st =>
    let args := decode_args inFile sampleRate in
    let '(err, stdout, stderr, w) := exec_Run "ffmpeg" args (world st) in
    (act (ARun "ffmpeg" args) w ;;;
     match err with
     | Some e =>
         ret ([], Some ("ffmpeg decode error: " ++ e ++ ", stderr: " ++ stderr))
     | None =>
         let data := filepath.chars stdout in
         let numSamples := (List.length data / 4)%nat in
         ret (read_samples numSamples 0 data)
     end) st.

(** [speech.NewDetector(cfg)]: the detector is its configuration. *)
Definition NewDetector (cfg : DetectorConfig)
  : M (DetectorConfig * error) :=
  fun st =>
    let '(err, w) := speech_NewDetector cfg (world st) in
    (act ANewDetector w ;;; ret (cfg, err)) st.

Fixpoint report (cb : func spec_float) (ps : list spec_float) : M unit :=
  match ps with
  | [] => ret tt
  | p :: ps' => call cb p ;;; report cb ps'
  end.

(** [sd.Detect(samples)] *)
Definition Detect (sd : DetectorConfig) (samples : list spec_float)
  : M (list Segment * error) :=
  fun st =>
    let lg := defaultLogger st in
    let '(ps, res, w) := speech_Detect lg sd samples (world st) in
    (act (ADetect lg) w ;;; report (ProgressCallback sd) ps ;;; ret res) st.

(** [sd.Destroy()] *)
Definition Destroy (sd : DetectorConfig) : M unit :=
  fun st => act ADestroy (world st) st.

(** [defer d] in front of the rest [body] of a function. *)
Definition defer {A} (d : M unit) (body : M A) : M A :=
  r <- body ;; d ;;; ret r.

(** [exec.Command(name, args...).CombinedOutput()] *)
Definition CombinedOutput (name : string) (args : list string)
  : M (string * error) :=
  fun st =>
    let '(output, err, w) := exec_CombinedOutput name args (world st) in
    (act (ACombinedOutput name args) w ;;; ret (output, err)) st.

(** [CondenseWithOptions] *)
Definition CondenseWithOptions
  (inFile outDir outSuffix outFormat : string) (threshold : spec_float)
  (minSilenceDuration padMs : Z)
  (progressCallback : func spec_float) (statusCallback : StatusCallback)
  : M error :=
  let progressCallback :=
    match progressCallback with
    | None => Some (fun (_ : spec_float) (st : St) => st)
    | Some _ => progressCallback
    end in
  let statusCallback :=
    match statusCallback with
    | None => Some (fun (_ : string) (st : St) => st)
    | Some _ => statusCallback
    end in
  call statusCallback "loading" ;;;
  '(samples, err) <- decodeToFloat32 inFile sampleRate ;;
  match err with
  | Some e => ret (Some ("failed to decode audio file: " ++ e))
  | None =>
  call statusCallback "detecting" ;;;
  '(sd, err) <- NewDetector
                  {| ModelPath := "./silero_vad.onnx";
                     SampleRate := sampleRate;
                     Threshold := threshold;
                     MinSilenceDurationMs := minSilenceDuration;
                     SpeechPadMs := padMs;
                     ProgressCallback := progressCallback |} ;;
  match err with
  | Some e => ret (Some ("failed to create speech detector: " ++ e))
  | None =>
  defer (Destroy sd)
    (originalDefault <- slog_Default ;;
     slog_SetDefault (TextLogger Discard None) ;;;
     '(segments, err) <- Detect sd samples ;;
     slog_SetDefault originalDefault ;;;
     match err with
     | Some e => ret (Some ("speech detection failed: " ++ e))
     | None =>
     if (List.length segments =? 0)%nat
     then ret (Some ("no speech detected in file: " ++ inFile))
     else
       let af := af segments in
       let outName := outName inFile outDir outSuffix outFormat in
       call statusCallback "exporting" ;;;
       '(output, err) <- CombinedOutput "ffmpeg" (export_args inFile af outName) ;;
       match err with
       | Some e => ret (Some ("ffmpeg error: " ++ e ++ ", output: " ++ output))
       | None => ret None
       end
     end)
  end
  end.

(** [runtime.EventsEmit(a.ctx, eventName, data)] *)
Definition EventsEmit (eventName : string) (data : CondenseProgress)
  : St -> St :=
  fun st =>
    {| world := world st;
       defaultLogger := defaultLogger st;
       trace := (trace st ++ [AEmit eventName data])%list |}.

(** The body of the loop of [CondenseFiles], for one [filePath]. *)
Definition condenseFile (filePath : string) (options : CondenseOptions)
  : M unit :=
  let emit data : M unit :=
    fun st => Some (tt, EventsEmit "condense:progress" data st) in
  emit {| FilePath := filePath; Status := "pending"; Error := "" |} ;;;
  let statusCallback : StatusCallback :=
    Some (fun status =>
            EventsEmit "condense:progress"
              {| FilePath := filePath; Status := status; Error := "" |}) in
  err <- CondenseWithOptions filePath
           (OutputDir options) (OutputSuffix options) (OutputFormat options)
           (float32_of_float64 (VadThreshold options))
           (MinSilenceDuration options) (SpeechPaddingMs options)
           None statusCallback ;;
  let '(status, errMsg) :=
    match err with
    | Some e => ("error", e)
    | None => ("completed", "")
    end in
  emit {| FilePath := filePath; Status := status; Error := errMsg |}.

(** [App.CondenseFiles] *)
Fixpoint CondenseFiles (filePaths : list string) (options : CondenseOptions)
  : M unit :=
  match filePaths with
  | [] => ret tt
  | filePath :: rest =>
      condenseFile filePath options ;;; CondenseFiles rest options
  end.

End Pipeline.

Arguments world {World} _.
Arguments defaultLogger {World} _.
Arguments trace {World} _.

(** ** What a run leaves in the log *)

(** The payloads of the emitted events, in order. *)
Definition emitted (tr : list Action) : list CondenseProgress :=
  flat_map (fun a => match a with AEmit _ d => [d] | _ => [] end) tr.

(** The argument lists of the [CombinedOutput] runs (the exports). *)
Definition exports (tr : list Action) : list (list string) :=
  flat_map (fun a => match a with ACombinedOutput _ args => [args] | _ => [] end) tr.

(** The [-af] argument and the output name in [export_args]. *)
Definition filter_arg (args : list string) : string := nth 5 args "".
Definition output_arg (args : list string) : string := nth 6 args "".

(** The loggers under which the detector ran. *)
Definition detect_loggers (tr : list Action) : list Logger :=
  flat_map (fun a => match a with ADetect lg => [lg] | _ => [] end) tr.

(** The part of the log written between two states. *)
Definition since {World} (st st' : St World) : list Action :=
  skipn (List.length (trace st)) (trace st').

(** ** The status stream of one job *)

Definition stages : list string :=
  ["pending"; "loading"; "detecting"; "exporting"].

Definition status_event (filePath status : string) : CondenseProgress :=
  {| FilePath := filePath; Status := status; Error := "" |}.

Definition terminal_event (filePath : string) (err : error) : CondenseProgress :=
  match err with
  | Some e => {| FilePath := filePath; Status := "error"; Error := e |}
  | None => {| FilePath := filePath; Status := "completed"; Error := "" |}
  end.

Definition is_terminal (d : CondenseProgress) : bool :=
  String.eqb (Status d) "completed" || String.eqb (Status d) "error".

(** The stream of a job that got through the first [reached] stages and
    ended with [err]. *)
Definition job_events (filePath : string) (reached : nat) (err : error)
  : list CondenseProgress :=
  (map (status_event filePath) (firstn reached stages)
   ++ [terminal_event filePath err])%list.

(** Every job is announced and starts loading; only a job that got to
    exporting can complete. *)
Definition job_shape (reached : nat) (err : error) : Prop :=
  (2 <= reached <= 4)%nat /\ (err = None -> reached = 4%nat).

(** ** Segment lists as sets of times *)


Definition seg_start (s : Segment) : Q := SF2Q (SpeechStartAt s).
Definition seg_end (s : Segment) : Q := SF2Q (SpeechEndAt s).

Definition finite_segment (s : Segment) : bool :=
  is_finite (SpeechStartAt s) && is_finite (SpeechEndAt s).



Fixpoint insertQ (x : Q) (l : list Q) : list Q :=
  match l with
  | [] => [x]
  | y :: l' => if Qle_bool x y then x :: l else y :: insertQ x l'
  end.

Definition sortQ (l : list Q) : list Q := fold_right insertQ [] l.

Fixpoint pieces (l : list Q) : list (Q * Q) :=
  match l with
  | p :: (q :: _) as l' => (p, q) :: pieces l'
  | _ => []
  end.

(** The measure of the union of the intervals of the list: the pieces
    between consecutive endpoints that lie inside some interval, added
    up. *)
Definition union_measure (segs : list Segment) : Q :=
  let ends := sortQ (flat_map (fun s => [seg_start s; seg_end s]) segs) in
  fold_right Qplus 0%Q
    (map (fun pq : Q * Q =>
            let (p, q) := pq in
            if existsb (fun s => Qle_bool (seg_start s) p && Qle_bool q (seg_end s)) segs
            then (q - p)%Q else 0%Q)
         (pieces ends)).

(** Sorted ascending by [startSec]; each [endSec] at most the next
    [startSec]. *)
Fixpoint sorted_by_start (segs : list Segment) : bool :=
  match segs with
  | a :: (b :: _) as rest =>
      SFleb (SpeechStartAt a) (SpeechStartAt b) && sorted_by_start rest
  | _ => true
  end.

Fixpoint non_overlapping (segs : list Segment) : bool :=
  match segs with
  | a :: (b :: _) as rest =>
      SFleb (SpeechEndAt a) (SpeechStartAt b) && non_overlapping rest
  | _ => true
  end.

(** ** The validator of the specification *)

(** Following the specification's words (section 4.2), not the program,
    which has no such step: sort by [startSec] ascending, then merge a
    segment whose [startSec] is below the previous [endSec] into it, from
    the smaller start to the larger end. *)
Fixpoint spec_insert (s : Segment) (l : list Segment) : list Segment :=
  match l with
  | [] => [s]
  | x :: l' =>
      if SFleb (SpeechStartAt s) (SpeechStartAt x) then s :: l
      else x :: spec_insert s l'
  end.

Definition spec_sort (l : list Segment) : list Segment :=
  fold_right spec_insert [] l.

Definition SFmin (a b : spec_float) : spec_float := if SFltb b a then b else a.
Definition SFmax (a b : spec_float) : spec_float := if SFltb a b then b else a.

Fixpoint spec_merge (prev : Segment) (rest : list Segment) : list Segment :=
  match rest with
  | [] => [prev]
  | s :: rest' =>
      if SFltb (SpeechStartAt s) (SpeechEndAt prev)
      then spec_merge
             {| SpeechStartAt := SFmin (SpeechStartAt prev) (SpeechStartAt s);
                SpeechEndAt := SFmax (SpeechEndAt prev) (SpeechEndAt s) |}
             rest'
      else prev :: spec_merge s rest'
  end.

Definition spec_validate (segs : list Segment) : list Segment :=
  match spec_sort segs with
  | [] => []
  | s :: rest => spec_merge s rest
  end.

(** ** The filter as the encoder reads it *)

(** What [ffmpeg] makes of the text of [-af].  The reader below shares
    nothing with the model of [%.2f]: it takes the text character by
    character.  It covers the numerals [av_strtod] reads without exponent
    or unit suffix, sums of [between(t,lo,hi)] terms, and the chain of an
    [aselect] and an [asetpts] filter; any other text is not read
    ([None]). *)
Module ffmpeg.

(** Expressions over the time [t] of a sample: [between(t,lo,hi)] is 1
    when [lo <= t <= hi] and 0 otherwise, [+] adds. *)
Inductive Expr :=
| Between (lo hi : Q)
| Plus (e1 e2 : Expr).

Fixpoint eval (e : Expr) (t : Q) : Q :=
  match e with
  | Between lo hi => if Qle_bool lo t && Qle_bool t hi then 1%Q else 0%Q
  | Plus e1 e2 => (eval e1 t + eval e2 t)%Q
  end.

(** [aselect] keeps the samples at which its expression is not zero. *)
Definition selects (e : Expr) (t : Q) : bool := negb (Qeq_bool (eval e t) 0).

(** The bounds of the between-terms, from left to right. *)
Fixpoint terms (e : Expr) : list (Q * Q) :=
  match e with
  | Between lo hi => [(lo, hi)]
  | Plus e1 e2 => (terms e1 ++ terms e2)%list
  end.

(** The filters of the chain: [aselect] with its expression, [asetpts]
    with the text of its own. *)
Inductive Filter :=
| Aselect (e : Expr)
| Asetpts (expr : string).

Definition digit_value (c : ascii) : option Z :=
  let n := nat_of_ascii c in
  if (48 <=? n)%nat && (n <=? 57)%nat then Some (Z.of_nat n - 48)%Z else None.

(** The digits at the head of the text: the number they write after
    [acc], the power of ten of their count times [scale], and the rest
    of the text. *)
Fixpoint read_digits (acc : Z) (scale : positive) (s : string)
  : Z * positive * string :=
  match s with
  | String c s' =>
      match digit_value c with
      | Some d => read_digits (10 * acc + d) (10 * scale) s'
      | None => (acc, scale, s)
      end
  | EmptyString => (acc, scale, s)
  end.

Definition read_sign (s : string) : bool * string :=
  match s with
  | String c s' =>
      if Ascii.eqb c "-" then (true, s')
      else if Ascii.eqb c "+" then (false, s')
      else (false, s)
  | EmptyString => (false, s)
  end.

(** A numeral: an optional sign, digits, and an optional point with
    digits after it; at least one digit. *)
Definition read_number (s : string) : option (Q * string) :=
  let (neg, s0) := read_sign s in
  let '(whole, scale1, s1) := read_digits 0 1 s0 in
  let '(frac, scale2, s2) :=
    match s1 with
    | String c s' =>
        if Ascii.eqb c "." then read_digits 0 1 s' else (0%Z, 1%positive, s1)
    | EmptyString => (0%Z, 1%positive, s1)
    end in
  if ((scale1 =? 1) && (scale2 =? 1))%positive then None
  else
    let v := ((whole * Zpos scale2 + frac) # scale2)%Q in
    Some (if neg then Qopp v else v, s2).

(** The text after the prefix [p]. *)
Fixpoint expect (p s : string) : option string :=
  match p with
  | EmptyString => Some s
  | String c p' =>
      match s with
      | String d s' => if Ascii.eqb c d then expect p' s' else None
      | EmptyString => None
      end
  end.

Definition read_between (s : string) : option (Expr * string) :=
  match expect "between(t," s with
  | None => None
  | Some s1 =>
      match read_number s1 with
      | None => None
      | Some (lo, s2) =>
          match expect "," s2 with
          | None => None
          | Some s3 =>
              match read_number s3 with
              | None => None
              | Some (hi, s4) =>
                  match expect ")" s4 with
                  | None => None
                  | Some s5 => Some (Between lo hi, s5)
                  end
              end
          end
      end
  end.

(** The terms added to [e], from left to right; [fuel] bounds their
    number. *)
Fixpoint read_more (fuel : nat) (e : Expr) (s : string)
  : option (Expr * string) :=
  match s with
  | String c s' =>
      if Ascii.eqb c "+" then
        match fuel with
        | O => None
        | S fuel' =>
            match read_between s' with
            | Some (e', s'') => read_more fuel' (Plus e e') s''
            | None => None
            end
        end
      else Some (e, s)
  | EmptyString => Some (e, s)
  end.

Definition read_expr (s : string) : option (Expr * string) :=
  match read_between s with
  | Some (e, s') => read_more (String.length s') e s'
  | None => None
  end.

(** [aselect='EXPR',asetpts=TEXT] *)
Definition read_chain (s : string) : option (list Filter) :=
  match expect "aselect='" s with
  | None => None
  | Some s1 =>
      match read_expr s1 with
      | None => None
      | Some (e, s2) =>
          match expect "',asetpts=" s2 with
          | None => None
          | Some s3 => Some [Aselect e; Asetpts s3]
          end
      end
  end.

End ffmpeg.

(** A finite value at the precision of the expression: the nearest
    hundredth, ties to even. *)
Definition rounded (x : spec_float) : Q :=
  match x with
  | S754_finite s m e =>
      let v := (fmt.hundredths m e # 100)%Q in
      if s then Qopp v else v
  | _ => (0 # 100)%Q
  end.


Definition written (s : Segment) : Q * Q :=
  (rounded (SpeechStartAt s), rounded (SpeechEndAt s)).


(** The number of intervals of the list [t] lies in. *)
Fixpoint hits (l : list (Q * Q)) (t : Q) : Q :=
  match l with
  | [] => 0%Q
  | lh :: l' =>
      ((if Qle_bool (fst lh) t && Qle_bool t (snd lh) then 1 else 0)
       + hits l' t)%Q
  end.

Definition is_digit (c : ascii) : bool :=
  (48 <=? nat_of_ascii c)%nat && (nat_of_ascii c <=? 57)%nat.

(** ** A scripted world for the examples *)

(** The world is the list of the results the detector will give, one per
    file; decoding fails for the file [missing.wav] and exporting for the
    output directory [/readonly]. *)
Definition Script : Type := list (list Segment).

Definition script_Run (name : string) (args : list string) (w : Script)
  : error * string * string * Script :=
  if String.eqb (nth 1 args "") "missing.wav"
  then (Some "exit status 1", "", "No such file or directory", w)
  else (None, "abcdefgh", "", w).

Definition script_CombinedOutput (name : string) (args : list string) (w : Script)
  : string * error * Script :=
  if String.eqb (filepath.Dir (output_arg args)) "/readonly"
  then ("Permission denied", Some "exit status 1", w)
  else ("", None, w).

Definition script_NewDetector (cfg : DetectorConfig Script) (w : Script)
  : error * Script := (None, w).

Definition script_Detect (lg : Logger) (cfg : DetectorConfig Script)
  (samples : list spec_float) (w : Script)
  : list spec_float * (list Segment * error) * Script :=
  match w with
  | [] => ([], ([], Some "inference failed"), [])
  | segs :: w' => ([f64 1 (-1); f64 1 0], (segs, None), w')
  end.

Definition seg (a b : Z) : Segment :=
  {| SpeechStartAt := f64 a 0; SpeechEndAt := f64 b 0 |}.

(** The state [main] leaves: a text handler on the standard error. *)
Definition start (w : Script) : St Script :=
  {| world := w;
     defaultLogger := TextLogger Stderr (Some LevelWarn);
     trace := [] |}.

Definition options0 : CondenseOptions :=
  {| OutputSuffix := "_condensed";
     OutputDir := "";
     OutputFormat := "mp3";
     VadThreshold := f64 1 (-1);
     MinSilenceDuration := 200;
     SpeechPaddingMs := 200 |}.

Definition options1 : CondenseOptions :=
  {| OutputSuffix := "_c";
     OutputDir := "/out";
     OutputFormat := "wav";
     VadThreshold := f64 3 (-2);
     MinSilenceDuration := 100;
     SpeechPaddingMs := 30 |}.

(** Another process state: the initial logger and a log that is not
    empty. *)
Definition later (w : Script) : St Script :=
  {| world := w; defaultLogger := InitialLogger; trace := [ADestroy] |}.



Definition script_condenseFile :=
  condenseFile Script script_Run script_CombinedOutput script_NewDetector script_Detect.

Definition script_CondenseFiles :=
  CondenseFiles Script script_Run script_CombinedOutput script_NewDetector script_Detect.


(** ** The calls [CondenseFiles] makes *)

(** The samples [decodeToFloat32] reads from the decoder's output. *)
Definition samples_of (stdout : string) : list spec_float :=
  let data := filepath.chars stdout in
  fst (read_samples (List.length data / 4) 0 data).

(** The detector configuration of a job of [CondenseFiles]: its progress
    callback is the no-op that replaces nil. *)
Definition app_cfg {World} (options : CondenseOptions) : DetectorConfig World :=
  {| ModelPath := "./silero_vad.onnx";
     SampleRate := sampleRate;
     Threshold := float32_of_float64 (VadThreshold options);
     MinSilenceDurationMs := MinSilenceDuration options;
     SpeechPadMs := SpeechPaddingMs options;
     ProgressCallback := Some (fun (_ : spec_float) (st : St World) => st) |}.

Definition discard : Logger := TextLogger Discard None.

Definition emit_status (filePath status : string) : Action :=
  AEmit "condense:progress" (status_event filePath status).

Definition emit_terminal (filePath : string) (err : error) : Action :=
  AEmit "condense:progress" (terminal_event filePath err).

(** The state after some more actions, in the world [w]. *)
Definition extend {World} (st : St World) (w : World) (acts : list Action)
  : St World :=
  {| world := w;
     defaultLogger := defaultLogger st;
     trace := (trace st ++ acts)%list |}.

(** The error [CondenseWithOptions] makes of the encoder's. *)
Definition export_error (output : string) (err : error) : error :=
  match err with
  | Some e => Some ("ffmpeg error: " ++ e ++ ", output: " ++ output)
  | None => None
  end.

(** The input files of the decoder runs. *)
Definition decoded_files (tr : list Action) : list string :=
  flat_map (fun a => match a with ARun _ args => [nth 1 args ""] | _ => [] end) tr.

(** How one job of a batch went: the stages it got through and its end. *)
Record JobRun :=
  { job_file : string; job_reached : nat; job_err : error }.

Definition job_stream (j : JobRun) : list CondenseProgress :=
  job_events (job_file j) (job_reached j) (job_err j).

Definition job_ok (j : JobRun) : Prop :=
  job_shape (job_reached j) (job_err j).

(** Decoding [filePath] succeeds in the world [w], the detector is
    created and, run on the decoded samples, returns [segs] without an
    error, leaving the world [w3]. *)
Definition detects {World}
  (exec_Run : string -> list string -> World -> error * string * string * World)
  (speech_NewDetector : DetectorConfig World -> World -> error * World)
  (speech_Detect :
     Logger -> DetectorConfig World -> list spec_float -> World ->
     list spec_float * (list Segment * error) * World)
  (filePath : string) (options : CondenseOptions) (w : World)
  (segs : list Segment) (w3 : World) : Prop :=
  exists (stdout stderr : string) (w1 w2 : World) (ps : list spec_float),
    exec_Run "ffmpeg" (decode_args filePath sampleRate) w
    = (None, stdout, stderr, w1)
    /\ speech_NewDetector (app_cfg options) w1 = (None, w2)
    /\ speech_Detect discard (app_cfg options) (samples_of stdout) w2
       = (ps, (segs, None), w3).

(** ** The stages of a job, from the answers of its collaborators *)

Definition failed (err : error) : bool :=
  match err with
  | Some _ => true
  | None => false
  end.

Section Stages.

Variable World : Type.
Variable exec_Run :
  string -> list string -> World -> error * string * string * World.
Variable exec_CombinedOutput :
  string -> list string -> World -> string * error * World.
Variable speech_NewDetector : DetectorConfig World -> World -> error * World.
Variable speech_Detect :
  Logger -> DetectorConfig World -> list spec_float -> World ->
  list spec_float * (list Segment * error) * World.

(** How the stages of the job on [filePath] go in the world [w], told
    from what the decoder, the detector and the encoder answer there:
    the number of stages entered, [pending] counted, when one of them
    fails or the last is done; whether one failed; and the world the
    job leaves.  The decoder runs in the stage [loading], the detector
    is created and run in [detecting], the encoder runs in
    [exporting]. *)
Inductive stage_results (filePath : string) (options : CondenseOptions)
  (w : World) : nat -> bool -> World -> Prop :=
| loading_fails (e stdout stderr : string) (w1 : World) :
    exec_Run "ffmpeg" (decode_args filePath sampleRate) w
    = (Some e, stdout, stderr, w1) ->
    stage_results filePath options w 2 true w1
| detector_fails (e stdout stderr : string) (w1 w2 : World) :
    exec_Run "ffmpeg" (decode_args filePath sampleRate) w
    = (None, stdout, stderr, w1) ->
    speech_NewDetector (app_cfg options) w1 = (Some e, w2) ->
    stage_results filePath options w 3 true w2
| detecting_fails (e stdout stderr : string) (w1 w2 w3 : World)
    (ps : list spec_float) (segs : list Segment) :
    exec_Run "ffmpeg" (decode_args filePath sampleRate) w
    = (None, stdout, stderr, w1) ->
    speech_NewDetector (app_cfg options) w1 = (None, w2) ->
    speech_Detect discard (app_cfg options) (samples_of stdout) w2
    = (ps, (segs, Some e), w3) ->
    stage_results filePath options w 3 true w3
| nothing_detected (w3 : World) :
    detects exec_Run speech_NewDetector speech_Detect
      filePath options w [] w3 ->
    stage_results filePath options w 3 true w3
| exporting_fails (segs : list Segment) (w3 w4 : World) (output e : string) :
    detects exec_Run speech_NewDetector speech_Detect
      filePath options w segs w3 ->
    segs <> [] ->
    exec_CombinedOutput "ffmpeg"
      (export_args filePath (af segs)
         (outName filePath (OutputDir options) (OutputSuffix options)
            (OutputFormat options))) w3
    = (output, Some e, w4) ->
    stage_results filePath options w 4 true w4
| all_stages_done (segs : list Segment) (w3 w4 : World) (output : string) :
    detects exec_Run speech_NewDetector speech_Detect
      filePath options w segs w3 ->
    segs <> [] ->
    exec_CombinedOutput "ffmpeg"
      (export_args filePath (af segs)
         (outName filePath (OutputDir options) (OutputSuffix options)
            (OutputFormat options))) w3
    = (output, None, w4) ->
    stage_results filePath options w 4 false w4.

(** The jobs of a batch one after the other: each starts in the world
    the one before it left. *)
Inductive batch_results (options : CondenseOptions)
  : World -> list JobRun -> World -> Prop :=
| batch_done (w : World) : batch_results options w [] w
| batch_job (w w1 w2 : World) (j : JobRun) (runs : list JobRun) :
    stage_results (job_file j) options w
      (job_reached j) (failed (job_err j)) w1 ->
    batch_results options w1 runs w2 ->
    batch_results options w (j :: runs) w2.

End Stages.

(** Two segments with the same start and the same end. *)
Definition same_segment (a b : Segment) : Prop :=
  SpeechStartAt a = SpeechStartAt b /\ SpeechEndAt a = SpeechEndAt b.

(** [%.2f] writes [x] with two digits after the point; read back, the
    numeral is a whole number of hundredths, within half a hundredth of
    [x]. *)
Definition two_decimals (x : spec_float) : Prop :=
  (exists (whole : string) (d1 d2 : ascii),
      fmt.Sprintf_2f x = whole ++ "." ++ String d1 (String d2 "")
      /\ is_digit d1 = true /\ is_digit d2 = true)
  /\ (exists k : Z,
        ffmpeg.read_number (fmt.Sprintf_2f x) = Some ((k # 100)%Q, "")
        /\ (Qabs ((k # 100) - SF2Q x) <= 1 # 200)%Q).

(** ** The rest of the application *)

(** The sample the read loop makes of the bytes [4i .. 4i+3] of the
    decoder's output. *)
Definition sample_at (data : list ascii) (i : nat) : spec_float :=
  Float32frombits
    (le32 (nth (4 * i) data zero) (nth (4 * i + 1) data zero)
          (nth (4 * i + 2) data zero) (nth (4 * i + 3) data zero)).

(** The ways one job of [CondenseFiles] can go. *)
Inductive JobPath :=
| DecodeFailed (e stderr : string)
| DetectorFailed (e : string)
| DetectFailed (e : string)
| NoSpeech
| Exported (segs : list Segment) (output : string) (err : error).

(** The error [CondenseWithOptions] returns on each of them. *)
Definition job_error (filePath : string) (p : JobPath) : error :=
  match p with
  | DecodeFailed e stderr =>
      Some ("failed to decode audio file: ffmpeg decode error: "
            ++ e ++ ", stderr: " ++ stderr)
  | DetectorFailed e => Some ("failed to create speech detector: " ++ e)
  | DetectFailed e => Some ("speech detection failed: " ++ e)
  | NoSpeech => Some ("no speech detected in file: " ++ filePath)
  | Exported _ output err => export_error output err
  end.

(** What the job does on each of them, up to its terminal event. *)
Definition job_steps (filePath : string) (options : CondenseOptions)
  (p : JobPath) : list Action :=
  let loading :=
    [emit_status filePath "pending";
     emit_status filePath "loading";
     ARun "ffmpeg" (decode_args filePath sampleRate)] in
  let detecting :=
    (loading ++ [emit_status filePath "detecting"; ANewDetector])%list in
  match p with
  | DecodeFailed _ _ => loading
  | DetectorFailed _ => detecting
  | DetectFailed _ | NoSpeech =>
      (detecting ++ [ADetect discard; ADestroy])%list
  | Exported segs _ _ =>
      (detecting
       ++ [ADetect discard;
           emit_status filePath "exporting";
           ACombinedOutput "ffmpeg"
             (export_args filePath (af segs)
                (outName filePath (OutputDir options) (OutputSuffix options)
                   (OutputFormat options)));
           ADestroy])%list
  end.

Definition job_trace (filePath : string) (options : CondenseOptions)
  (p : JobPath) : list Action :=
  (job_steps filePath options p
   ++ [emit_terminal filePath (job_error filePath p)])%list.

(** A path the program can take: it exports only a non-empty list. *)
Definition path_ok (p : JobPath) : Prop :=
  match p with
  | Exported segs _ _ => segs <> []
  | _ => True
  end.

Definition is_destroy (a : Action) : bool :=
  match a with ADestroy => true | _ => false end.

Definition is_new_detector (a : Action) : bool :=
  match a with ANewDetector => true | _ => false end.

Definition is_emit (a : Action) : bool :=
  match a with AEmit _ _ => true | _ => false end.

(** [App.GetFileName] *)
Definition GetFileName (path : string) : string := filepath.Base path.

(** A string with a path separator in it, and a name that can stand as
    the last element of a path. *)
Definition has_sep (s : string) : bool :=
  existsb filepath.IsPathSeparator (filepath.chars s).

Definition plain_name (name : string) : bool :=
  negb (has_sep name)
  && negb (String.eqb name "") && negb (String.eqb name ".")
  && negb (String.eqb name "..").

(** An element [Clean] keeps: not empty, not a dot, without separator. *)
Definition kept (e : string) : Prop :=
  e <> "" /\ e <> "." /\ has_sep e = false.

(** ** The front end ([App.tsx]) *)

Module frontend.

(** [FileItem]; a missing [error] is [None]. *)
Record FileItem :=
  { path : string; name : string; status : string; error : option string }.

(** The [error] of an event as the front end receives it: the field is
    left out of the JSON when the message is empty. *)
Definition data_error (data : CondenseProgress) : option string :=
  if String.eqb (Error data) "" then None else Some (Error data).

(** The update of the listener on [condense:progress]. *)
Definition onProgress (data : CondenseProgress) (prev : list FileItem)
  : list FileItem :=
  map (fun f =>
         if String.eqb (path f) (FilePath data)
         then {| path := path f;
                 name := name f;
                 status := Status data;
                 error := data_error data |}
         else f)
      prev.

(** The update [handleDrop] makes for one dropped file, and the whole
    drop. *)
Definition addDropped (filePath : string) (prev : list FileItem)
  : list FileItem :=
  if existsb (fun f => String.eqb (path f) filePath) prev then prev
  else (prev ++ [{| path := filePath;
                    name := GetFileName filePath;
                    status := "pending";
                    error := None |}])%list.

Definition handleDrop (dropped : list string) (prev : list FileItem)
  : list FileItem :=
  fold_left (fun fs p => addDropped p fs) dropped prev.

(** [handleBrowseFiles], for the paths the dialog returned. *)
Definition handleBrowseFiles (selectedPaths : list string)
  (files : list FileItem) : list FileItem :=
  let newFiles :=
    map (fun p => {| path := p;
                     name := GetFileName p;
                     status := "pending";
                     error := None |})
        (filter (fun p => negb (existsb (fun f => String.eqb (path f) p) files))
                selectedPaths) in
  (files ++ newFiles)%list.

(** The reset [handleCondense] starts with, and the list once the events
    of the batch have gone through the listener. *)
Definition resetPending (prev : list FileItem) : list FileItem :=
  map (fun f => {| path := path f;
                   name := name f;
                   status := "pending";
                   error := None |})
      prev.

Definition deliver (events : list CondenseProgress) (prev : list FileItem)
  : list FileItem :=
  fold_left (fun fs d => onProgress d fs) events prev.

(** [handleCondense], given the events the call of [CondenseFiles] on
    [map path files] emits while it is awaited. *)
Definition handleCondense (files : list FileItem) (isProcessing : bool)
  (events : list CondenseProgress) : list FileItem * bool :=
  if (List.length files =? 0)%nat || isProcessing then (files, isProcessing)
  else (deliver events (resetPending files), false).

(** [removeFile] *)
Definition removeFile (p : string) (files : list FileItem)
  (isProcessing : bool) : list FileItem :=
  if isProcessing then files
  else filter (fun f => negb (String.eqb (path f) p)) files.

(** One item after the events. *)
Definition item_after (events : list CondenseProgress) (f : FileItem)
  : FileItem :=
  fold_left (fun f d =>
               if String.eqb (path f) (FilePath d)
               then {| path := path f;
                       name := name f;
                       status := Status d;
                       error := data_error d |}
               else f)
            events f.

(** An item whose job is over: done without an error text, or failed
    with one. *)
Definition settled (f : FileItem) : Prop :=
  (status f = "completed" /\ error f = None)
  \/ (status f = "error" /\ exists msg, msg <> "" /\ error f = Some msg).

(** The list invariant: no path twice, and each name is the base name of
    its path. *)
Definition well_formed (files : list FileItem) : Prop :=
  NoDup (map path files)
  /\ Forall (fun f => name f = GetFileName (path f)) files.

End frontend.

(** ** The command line's progress bar ([cmd/vadcondense-cli]) *)

Module cli.

(** The product of two [float64]. *)
Definition mul (x y : spec_float) : spec_float := SFmul 53 1024 x y.

(** A finite value without its fraction. *)
Definition trunc (s : bool) (m : positive) (e : Z) : Z :=
  let a :=
    match e with
    | Zneg p => (Zpos m / 2 ^ Zpos p)%Z
    | _ => (Zpos m * 2 ^ e)%Z
    end in
  if s then (- a)%Z else a.

(** The values [int(x)] is defined for: the finite ones whose integer
    part fits 64 bits. *)
Definition representable (x : spec_float) : bool :=
  match x with
  | S754_zero _ => true
  | S754_finite s m e =>
      ((- 2 ^ 63 <=? trunc s m e) && (trunc s m e <? 2 ^ 63))%Z
  | _ => false
  end.

(** [int(x)]: the fraction is discarded; what a value that does not fit
    gives depends on the machine, [other]. *)
Definition int (other : spec_float -> Z) (x : spec_float) : Z :=
  match x with
  | S754_zero _ => 0%Z
  | S754_finite s m e => if representable x then trunc s m e else other x
  | _ => other x
  end.

(** [strings.Repeat(s, count)]; it panics ([None]) on a negative
    count. *)
Definition Repeat (s : string) (count : Z) : option string :=
  if (count <? 0)%Z then None
  else Some (String.concat "" (repeat s (Z.to_nat count))).

(** The full block U+2588, in UTF-8. *)
Definition block : string :=
  String "226"%char (String "150"%char (String "136"%char "")).

(** [%3d] *)
Definition Sprintf_3d (n : Z) : string :=
  let s := fmt.Sprintf_d n in
  String.concat "" (repeat " " (3 - String.length s)) ++ s.

Definition width : Z := 40.

(** The number of filled cells [printProgress] computes. *)
Definition filled (other : spec_float -> Z) (p : spec_float) : Z :=
  let filled := int other (mul (f64 width 0) p) in
  if (filled >? width)%Z then width else filled.

(** [printProgress]: what it writes to the standard output, or [None]
    when it panics. *)
Definition printProgress (other : spec_float -> Z) (p : spec_float)
  : option string :=
  let pct := int other (mul p (f64 100 0)) in
  let filled := filled other p in
  match Repeat block filled, Repeat " " (width - filled) with
  | Some full, Some empty =>
      let bar := full ++ empty in
      Some (String "013"%char "voice detection [" ++ bar ++ "] "
            ++ Sprintf_3d pct ++ "%"
            ++ (if SFleb (f64 1 0) p then String "010"%char "" else ""))
  | _, _ => None
  end.

(** A bar of [k] filled cells out of 40. *)
Definition bar_of (k : nat) : string :=
  String.concat "" (repeat block k) ++ String.concat "" (repeat " " (40 - k)).

End cli.

(** A progress value that is zero or positive and finite. *)
Definition not_negative (p : spec_float) : bool :=
  match p with
  | S754_zero _ | S754_finite false _ _ => true
  | _ => false
  end.

(** Each call of a log with the status of the last event before it,
    starting from the status [cur]. *)
Fixpoint under_status (cur : string) (tr : list Action)
  : list (string * Action) :=
  match tr with
  | [] => []
  | AEmit _ d :: tr' => under_status (Status d) tr'
  | a :: tr' => (cur, a) :: under_status cur tr'
  end.

(** The stage a call belongs to is the one announced. *)
Definition stage_ok (sa : string * Action) : bool :=
  let (s, a) := sa in
  match a with
  | ARun _ _ => String.eqb s "loading"
  | ANewDetector | ADetect _ => String.eqb s "detecting"
  | ACombinedOutput _ _ => String.eqb s "exporting"
  | ADestroy => String.eqb s "detecting" || String.eqb s "exporting"
  | AEmit _ _ => true
  end.

(** * Properties *)

(** ** The library model on Go's documented examples *)

Example Clean_examples :
  map filepath.Clean
      ["a/c"; "a//c"; "a/c/."; "a/c/b/.."; "/../a/c"; "/../a/b/../././/c";
       ""; "../../x"; "a/../.."; "/"; "//"; "./"]
  = ["a/c"; "a/c"; "a/c"; "a/c"; "/a/c"; "/a/c";
     "."; "../../x"; ".."; "/"; "/"; "."].
Proof. reflexivity. Qed.

Example Base_Dir_Ext_examples :
  map filepath.Base ["/foo/bar/baz.js"; "/foo/bar/baz/"; "dev.txt"; ""; "////"]
  = ["baz.js"; "baz"; "dev.txt"; "."; "/"]
  /\ map filepath.Dir ["/foo/bar/baz.js"; "/foo/bar/baz/"; "dev.txt"; "/"; ""; "../todo.txt"]
     = ["/foo/bar"; "/foo/bar/baz"; "."; "/"; "."; ".."]
  /\ map filepath.Ext ["index"; "index.js"; "main.test.js"; "a.b/c"; "/x/.bashrc"]
     = [""; ".js"; ".js"; ""; ".bashrc"].
Proof. repeat split; reflexivity. Qed.

Example Sprintf_2f_examples :
  map fmt.Sprintf_2f
      [f64 1 (-1); f64 1 (-3); f64 3 (-3); f64 5 0; f64 1234567 (-10);
       S754_zero false; S754_zero true; S754_finite true 1 (-20);
       S754_nan; S754_infinity false; S754_infinity true;
       S754_finite false 5404319552844595 (-52)]
  = ["0.50"; "0.12"; "0.38"; "5.00"; "1205.63";
     "0.00"; "-0.00"; "-0.00";
     "NaN"; "+Inf"; "-Inf";
     "1.20"].
Proof. reflexivity. Qed.

(** ** Two decimal places *)

Lemma digit_is_digit (k : Z) :
  (0 <= k < 10)%Z -> is_digit (fmt.digit k) = true.
Proof.
  intros H.
  assert (Hk : (k = 0 \/ k = 1 \/ k = 2 \/ k = 3 \/ k = 4 \/ k = 5 \/ k = 6
               \/ k = 7 \/ k = 8 \/ k = 9)%Z) by lia.
  repeat (destruct Hk as [-> | Hk]; [reflexivity|]). now subst.
Qed.

Lemma fixed2_shape (n : Z) :
  exists d1 d2 : ascii,
    fmt.fixed2 n = fmt.dec (n / 100) ++ "." ++ String d1 (String d2 "")
    /\ is_digit d1 = true /\ is_digit d2 = true.
Proof.
  exists (fmt.digit ((n / 10) mod 10)), (fmt.digit (n mod 10)).
  split; [reflexivity|].
  split; apply digit_is_digit; apply Z.mod_pos_bound; lia.
Qed.

Lemma hundredths_nonneg (m : positive) (e : Z) : (0 <= fmt.hundredths m e)%Z.
Proof.
  unfold fmt.hundredths. destruct e as [|p|p].
  - lia.
  - pose proof (Z.pow_pos_nonneg 2 (Zpos p)). nia.
  - assert (Hd : (0 < 2 ^ Zpos p)%Z) by (apply Z.pow_pos_nonneg; lia).
    assert (Hq : (0 <= 100 * Zpos m / 2 ^ Zpos p)%Z)
      by (apply Z.div_pos; lia).
    destruct (2 * ((100 * Zpos m) mod 2 ^ Zpos p) ?= 2 ^ Zpos p)%Z;
      [destruct (Z.even _)|..]; lia.
Qed.

(** The integer nearest to [100 * m * 2^e] is within a half of it. *)
Lemma hundredths_close_neg (m p : positive) :
  let den := (2 ^ Zpos p)%Z in
  (Z.abs (2 * (fmt.hundredths m (Zneg p) * den - 100 * Zpos m)) <= den)%Z.
Proof.
  intros den. unfold fmt.hundredths. fold den.
  assert (Hd : (0 < den)%Z) by (apply Z.pow_pos_nonneg; lia).
  pose proof (Z.div_mod (100 * Zpos m) den ltac:(lia)) as Hdm.
  pose proof (Z.mod_pos_bound (100 * Zpos m) den Hd) as Hr.
  set (q := (100 * Zpos m / den)%Z) in *.
  set (r := ((100 * Zpos m) mod den)%Z) in *.
  destruct (2 * r ?= den)%Z eqn:Hc.
  - apply Z.compare_eq in Hc. destruct (Z.even q); nia.
  - rewrite Z.compare_lt_iff in Hc. nia.
  - rewrite Z.compare_gt_iff in Hc. nia.
Qed.

Lemma pos_pow_1_l (p : positive) : (1 ^ p = 1)%positive.
Proof.
  apply Pos2Z.inj. rewrite Pos2Z.inj_pow. apply Z.pow_1_l. lia.
Qed.

Lemma pow2_neg (p : positive) :
  (Qpower 2 (Zneg p) == 1 # (2 ^ p)%positive)%Q.
Proof.
  cbn [Qpower]. change 2%Q with (2 # 1)%Q.
  rewrite Qpower_decomp_positive.
  change (2 ^ Zpos p)%Z with (Zpos 2 ^ Zpos p)%Z.
  rewrite <- Pos2Z.inj_pow, pos_pow_1_l. reflexivity.
Qed.

Lemma pow2_pos (p : positive) :
  (Qpower 2 (Zpos p) == inject_Z (2 ^ Zpos p))%Q.
Proof. rewrite Zpower_Qpower by lia. reflexivity. Qed.

Lemma hundredths_close (m : positive) (e : Z) :
  (Qabs ((fmt.hundredths m e # 100) - inject_Z (Zpos m) * Qpower 2 e) <= 1 # 200)%Q.
Proof.
  destruct e as [|p|p].
  - cbn [fmt.hundredths Qpower]. unfold Qle, Qabs, Qminus, Qplus, Qopp, Qmult, inject_Z.
    cbn [Qnum Qden]. rewrite Z.pow_0_r. 
    match goal with |- (Z.abs ?a * _ <= _)%Z => replace a with 0%Z by lia end. 
    cbn. lia.
  - rewrite pow2_pos. cbn [fmt.hundredths].
    unfold Qle, Qabs, Qminus, Qplus, Qopp, Qmult, inject_Z.
    cbn [Qnum Qden].
    match goal with |- (Z.abs ?a * _ <= _)%Z => replace a with 0%Z by lia end. 
    cbn. lia.
  - rewrite pow2_neg.
    pose proof (hundredths_close_neg m p) as H. cbv zeta in H.
    change (2 ^ Zpos p)%Z with (Zpos 2 ^ Zpos p)%Z in H.
    rewrite <- Pos2Z.inj_pow in H.
    unfold Qle, Qabs, Qminus, Qplus, Qopp, Qmult, inject_Z.
    cbn [Qnum Qden].
    set (N := fmt.hundredths m (Zneg p)) in *.
    set (D := (2 ^ p)%positive) in *.
    rewrite !Pos2Z.inj_mul.
    lia.
Qed.

Lemma rounded_close (x : spec_float) :
  is_finite x = true -> (Qabs (rounded x - SF2Q x) <= 1 # 200)%Q.
Proof.
  destruct x as [s|s| |s m e]; cbn [is_finite]; intros H;
    try discriminate H; [destruct s; vm_compute; intros H0; discriminate H0|].
  pose proof (hundredths_close m e) as Hc.
  unfold rounded, SF2Q.
  destruct s; [|exact Hc].
  set (a := (fmt.hundredths m e # 100)%Q) in *.
  set (b := (inject_Z (Zpos m) * Qpower 2 e)%Q) in *.
  assert (Heq : (- a - - b == - (a - b))%Q) by ring.
  rewrite Heq, Qabs_opp. exact Hc.
Qed.

Lemma rounded_hundredth (x : spec_float) : exists k : Z, rounded x = (k # 100)%Q.
Proof.
  destruct x as [s|s| |s m e]; try (exists 0%Z; reflexivity).
  destruct s; [exists (- fmt.hundredths m e)%Z|exists (fmt.hundredths m e)];
    reflexivity.
Qed.

Lemma rounded_bounds (x : spec_float) :
  is_finite x = true ->
  (SF2Q x - (1 # 200) <= rounded x)%Q /\ (rounded x <= SF2Q x + (1 # 200))%Q.
Proof.
  intros H. pose proof (rounded_close x H) as Hc.
  apply Qabs_Qle_condition in Hc. destruct Hc as [Hlo Hhi].
  split; lra.
Qed.

(** *** Rounding keeps the order *)





(** ** Strings *)

Lemma sapp_assoc (a b c : string) : (a ++ b) ++ c = a ++ (b ++ c).
Proof. induction a as [|x a IH]; cbn; [reflexivity|now rewrite IH]. Qed.

Lemma sapp_nil_r (a : string) : a ++ "" = a.
Proof. induction a as [|x a IH]; cbn; [reflexivity|now rewrite IH]. Qed.

Lemma slen_app (a b : string) :
  String.length (a ++ b) = (String.length a + String.length b)%nat.
Proof. induction a as [|x a IH]; cbn; [reflexivity|now rewrite IH]. Qed.

(** ** Reading the numerals back *)

Example read_examples :
  ffmpeg.read_number "-12.345,abc" = Some ((-12345 # 1000)%Q, ",abc")
  /\ ffmpeg.read_number "7)" = Some ((7 # 1)%Q, ")")
  /\ ffmpeg.read_number "abc" = None
  /\ ffmpeg.read_number (fmt.Sprintf_2f (S754_finite false 5404319552844595 (-52)))
     = Some ((120 # 100)%Q, "")
  /\ ffmpeg.read_chain
       "aselect='between(t,1.00,3.00)+between(t,2.00,4.00)',asetpts=N/SR/TB"
     = Some [ffmpeg.Aselect
               (ffmpeg.Plus (ffmpeg.Between (100 # 100) (300 # 100))
                            (ffmpeg.Between (200 # 100) (400 # 100)));
             ffmpeg.Asetpts "N/SR/TB"]
  /\ ffmpeg.read_chain "aselect='',asetpts=N/SR/TB" = None.
Proof. repeat split; vm_compute; reflexivity. Qed.

Lemma digit_value_digit (k : Z) :
  (0 <= k < 10)%Z -> ffmpeg.digit_value (fmt.digit k) = Some k.
Proof.
  intros H.
  assert (Hk : (k = 0 \/ k = 1 \/ k = 2 \/ k = 3 \/ k = 4 \/ k = 5 \/ k = 6
               \/ k = 7 \/ k = 8 \/ k = 9)%Z) by lia.
  repeat (destruct Hk as [-> | Hk]; [reflexivity|]). now subst.
Qed.

Lemma digit_not_sign (c : ascii) (d : Z) :
  ffmpeg.digit_value c = Some d ->
  Ascii.eqb c "-" = false /\ Ascii.eqb c "+" = false.
Proof.
  destruct c as [[] [] [] [] [] [] [] []]; cbn; intros H;
    try discriminate H; split; reflexivity.
Qed.

(** The text no digit follows. *)
Local Abbreviation stops rest :=
  (match rest with
   | String c _ => ffmpeg.digit_value c = None
   | EmptyString => True
   end).

Lemma read_digits_stops (acc : Z) (scale : positive) (rest : string) :
  stops rest -> ffmpeg.read_digits acc scale rest = (acc, scale, rest).
Proof.
  destruct rest as [|c r]; [reflexivity|]. cbn [ffmpeg.read_digits].
  now intros ->.
Qed.

Ltac read_digit :=
  cbn [NilEmpty.string_of_uint String.append ffmpeg.read_digits];
  match goal with
  | |- context [ffmpeg.digit_value ?c] =>
      let v := eval vm_compute in (ffmpeg.digit_value c) in
      change (ffmpeg.digit_value c) with v
  end;
  cbv beta iota.

Lemma read_digits_uint_pos (d : Decimal.uint) :
  forall (p scale : positive) (rest : string),
  exists scale' : positive,
    ffmpeg.read_digits (Zpos p) scale (NilEmpty.string_of_uint d ++ rest)
    = ffmpeg.read_digits (Zpos (Pos.of_uint_acc d p)) scale' rest.
Proof.
  induction d as [|d IH|d IH|d IH|d IH|d IH|d IH|d IH|d IH|d IH|d IH];
    intros p scale rest;
    [exists scale; reflexivity
    |read_digit; cbn [Pos.of_uint_acc];
     match goal with
     | |- context [Pos.of_uint_acc d ?k] =>
         destruct (IH k (10 * scale)%positive rest) as [sc H];
         exists sc; rewrite <- H; f_equal; lia
     end ..].
Qed.

Lemma read_digits_uint (d : Decimal.uint) :
  forall (scale : positive) (rest : string),
  exists scale' : positive,
    ffmpeg.read_digits 0 scale (NilEmpty.string_of_uint d ++ rest)
    = ffmpeg.read_digits (Z.of_N (Pos.of_uint d)) scale' rest.
Proof.
  induction d as [|d IH|d IH|d IH|d IH|d IH|d IH|d IH|d IH|d IH|d IH];
    intros scale rest;
    [exists scale; reflexivity
    |read_digit; cbn [Pos.of_uint]; apply IH
    |read_digit; cbn [Pos.of_uint Z.of_N];
     match goal with
     | |- context [Pos.of_uint_acc d ?k] =>
         destruct (read_digits_uint_pos d k (10 * scale)%positive rest)
           as [sc H];
         exists sc; rewrite <- H; reflexivity
     end ..].
Qed.

Lemma read_digits_dec (n : Z) (scale : positive) (rest : string) :
  (0 <= n)%Z ->
  exists scale' : positive,
    ffmpeg.read_digits 0 scale (fmt.dec n ++ rest)
    = ffmpeg.read_digits n scale' rest.
Proof.
  intros Hn. unfold fmt.dec.
  pose proof (DecimalN.Unsigned.of_to (Z.to_N n)) as Hv.
  unfold N.of_uint in Hv.
  destruct (N.to_uint (Z.to_N n)) as [|d|d|d|d|d|d|d|d|d|d] eqn:E;
    [assert (Hz : n = 0%Z) by (cbn in Hv; lia);
     subst n; exists (10 * scale)%positive; reflexivity
    |match goal with
     | |- context [NilZero.string_of_uint ?u] =>
         change (NilZero.string_of_uint u) with (NilEmpty.string_of_uint u);
         destruct (read_digits_uint u scale rest) as [sc H];
         exists sc; rewrite H, Hv, Z2N.id by lia; reflexivity
     end ..].
Qed.

Lemma dec_head (n : Z) :
  exists (c : ascii) (r : string) (d : Z),
    fmt.dec n = String c r /\ ffmpeg.digit_value c = Some d.
Proof.
  unfold fmt.dec, NilZero.string_of_uint.
  destruct (N.to_uint (Z.to_N n)); cbn [NilEmpty.string_of_uint];
    do 3 eexists; (split; [reflexivity|]); vm_compute; reflexivity.
Qed.

Lemma hundredths_digits (n : Z) :
  (n / 100 * 100 + (10 * (10 * 0 + (n / 10) mod 10) + n mod 10) = n)%Z.
Proof.
  pose proof (Z.div_mod n 10 ltac:(lia)).
  pose proof (Z.div_mod (n / 10) 10 ltac:(lia)).
  assert (n / 10 / 10 = n / 100)%Z by (rewrite Z.div_div by lia; reflexivity).
  lia.
Qed.

(** The numeral [%.2f] writes, read back, is the count of hundredths it
    was made of. *)
Lemma read_number_fixed2 (s : bool) (n : Z) (rest : string) :
  (0 <= n)%Z -> stops rest ->
  ffmpeg.read_number (fmt.sign s ++ fmt.fixed2 n ++ rest)
  = Some (if s then Qopp (n # 100) else (n # 100)%Q, rest).
Proof.
  intros Hn Hrest.
  assert (Hq : (0 <= n / 100)%Z) by (apply Z.div_pos; lia).
  assert (Hbody :
    forall scale : positive,
      exists scale' : positive,
        ffmpeg.read_digits 0 scale (fmt.fixed2 n ++ rest)
        = (n / 100, scale',
           String "." (String (fmt.digit ((n / 10) mod 10))
                         (String (fmt.digit (n mod 10)) rest)))%Z).
  { intros scale. unfold fmt.fixed2. rewrite sapp_assoc.
    destruct (read_digits_dec (n / 100) scale
                (String "." (String (fmt.digit ((n / 10) mod 10))
                               (String (fmt.digit (n mod 10)) "")) ++ rest) Hq)
      as [sc H].
    exists sc. rewrite H. reflexivity. }
  assert (Hfrac :
    ffmpeg.read_digits 0 1
      (String (fmt.digit ((n / 10) mod 10)) (String (fmt.digit (n mod 10)) rest))
    = (10 * (10 * 0 + (n / 10) mod 10) + n mod 10, 100%positive, rest)%Z).
  { cbn [ffmpeg.read_digits].
    rewrite !digit_value_digit by (apply Z.mod_pos_bound; lia).
    now rewrite read_digits_stops. }
  assert (Hread :
    forall text : string,
      ffmpeg.read_sign text = (false, fmt.fixed2 n ++ rest)
      \/ ffmpeg.read_sign text = (true, fmt.fixed2 n ++ rest) ->
      ffmpeg.read_number text
      = Some (if fst (ffmpeg.read_sign text) then Qopp (n # 100) else (n # 100)%Q,
              rest)).
  { intros text Hs. unfold ffmpeg.read_number.
    destruct (Hbody 1%positive) as [sc Hb].
    destruct Hs as [-> | ->]; rewrite Hb; cbn [fst];
      change (Ascii.eqb "." ".") with true; cbv beta iota;
      rewrite Hfrac, andb_false_r, hundredths_digits; reflexivity. }
  destruct s; cbn [fmt.sign String.append].
  - rewrite Hread; [reflexivity|]. right. reflexivity.
  - destruct (dec_head (n / 100)) as (c & r & d & Hc & Hd).
    destruct (digit_not_sign c d Hd) as [Hm Hp].
    assert (Hs : ffmpeg.read_sign (fmt.fixed2 n ++ rest)
                 = (false, fmt.fixed2 n ++ rest)).
    { unfold fmt.fixed2. rewrite Hc. cbn [String.append ffmpeg.read_sign].
      now rewrite Hm, Hp. }
    rewrite Hread by (left; exact Hs). now rewrite Hs.
Qed.

Lemma read_number_Sprintf_2f (x : spec_float) (rest : string) :
  is_finite x = true -> stops rest ->
  ffmpeg.read_number (fmt.Sprintf_2f x ++ rest) = Some (rounded x, rest).
Proof.
  intros Hx Hrest.
  destruct x as [s|s| |s m e]; try discriminate Hx.
  - change (fmt.Sprintf_2f (S754_zero s)) with (fmt.sign s ++ fmt.fixed2 0).
    rewrite sapp_assoc, read_number_fixed2 by (lia || assumption).
    destruct s; reflexivity.
  - cbn [fmt.Sprintf_2f]. 
    rewrite sapp_assoc, read_number_fixed2
      by (apply hundredths_nonneg || assumption).
    reflexivity.
Qed.

(** ** Reading the expression back *)

Lemma expect_app (p rest : string) : ffmpeg.expect p (p ++ rest) = Some rest.
Proof.
  induction p as [|c p IH]; [reflexivity|].
  cbn [String.append ffmpeg.expect]. now rewrite Ascii.eqb_refl.
Qed.

Lemma read_between_cut (s : Segment) (rest : string) :
  finite_segment s = true ->
  ffmpeg.read_between (cut s ++ rest)
  = Some (ffmpeg.Between (rounded (SpeechStartAt s)) (rounded (SpeechEndAt s)),
          rest).
Proof.
  unfold finite_segment. intros H. apply andb_true_iff in H.
  destruct H as [H1 H2].
  unfold cut, ffmpeg.read_between. rewrite !sapp_assoc, expect_app.
  rewrite (read_number_Sprintf_2f _ _ H1) by reflexivity.
  rewrite expect_app.
  rewrite (read_number_Sprintf_2f _ _ H2) by reflexivity.
  now rewrite expect_app.
Qed.

(** The text of the terms after the first, before [rest], and the
    expression they make with [e]. *)
Local Abbreviation more_text more rest :=
  (fold_right (fun s acc => "+" ++ cut s ++ acc) rest more).

Local Abbreviation more_terms more e :=
  (fold_left
     (fun acc s =>
        ffmpeg.Plus acc
          (ffmpeg.Between (rounded (SpeechStartAt s)) (rounded (SpeechEndAt s))))
     more e).

Lemma join_cuts (s0 : Segment) (more : list Segment) (rest : string) :
  strings.Join (cuts (s0 :: more)) "+" ++ rest = cut s0 ++ more_text more rest.
Proof.
  unfold strings.Join, cuts. revert s0.
  induction more as [|s1 more IH]; intros s0; [reflexivity|].
  change (String.concat "+" (map cut (s0 :: s1 :: more)))
    with (cut s0 ++ "+" ++ String.concat "+" (map cut (s1 :: more))).
  rewrite !sapp_assoc, IH. reflexivity.
Qed.

Lemma more_text_length (more : list Segment) (rest : string) :
  (List.length more <= String.length (more_text more rest))%nat.
Proof.
  induction more as [|s more IH]; cbn [fold_right List.length]; [lia|].
  change ("+" ++ cut s ++ more_text more rest)
    with (String "+" (cut s ++ more_text more rest)).
  cbn [String.length]. rewrite slen_app. lia.
Qed.

Lemma read_more_text (more : list Segment) :
  forall (fuel : nat) (e : ffmpeg.Expr) (rest : string),
    (List.length more <= fuel)%nat ->
    forallb finite_segment more = true ->
    match rest with
    | String c _ => Ascii.eqb c "+" = false
    | EmptyString => True
    end ->
    ffmpeg.read_more fuel e (more_text more rest)
    = Some (more_terms more e, rest).
Proof.
  induction more as [|s more IH]; intros fuel e rest Hfuel Hfin Hrest.
  - cbn [fold_right fold_left]. destruct rest as [|c r]; [now destruct fuel|].
    destruct fuel; cbn [ffmpeg.read_more]; now rewrite Hrest.
  - cbn [forallb] in Hfin. apply andb_true_iff in Hfin. destruct Hfin as [Hs Hm].
    destruct fuel as [|fuel]; [cbn in Hfuel; lia|].
    cbn [fold_right fold_left].
    change ("+" ++ cut s ++ more_text more rest)
      with (String "+" (cut s ++ more_text more rest)).
    cbn [ffmpeg.read_more]. change (Ascii.eqb "+" "+") with true. cbv beta iota.
    rewrite (read_between_cut _ _ Hs).
    apply IH; [cbn in Hfuel; lia|assumption..].
Qed.

Lemma terms_more (more : list Segment) :
  forall e : ffmpeg.Expr,
    ffmpeg.terms (more_terms more e) = (ffmpeg.terms e ++ map written more)%list.
Proof.
  induction more as [|s more IH]; intros e; cbn [fold_left map].
  - now rewrite app_nil_r.
  - rewrite IH. cbn [ffmpeg.terms]. now rewrite <- app_assoc.
Qed.

(** The filter text of a non-empty list of finite segments reads as the
    chain of [aselect], on the sum of the segments' terms with their
    times rounded to hundredths, and [asetpts=N/SR/TB]. *)
Lemma read_chain_af (segs : list Segment) :
  segs <> [] ->
  forallb finite_segment segs = true ->
  exists e : ffmpeg.Expr,
    ffmpeg.read_chain (af segs)
    = Some [ffmpeg.Aselect e; ffmpeg.Asetpts "N/SR/TB"]
    /\ ffmpeg.terms e = map written segs.
Proof.
  destruct segs as [|s0 more]; [congruence|]. intros _ Hfin.
  cbn [forallb] in Hfin. apply andb_true_iff in Hfin. destruct Hfin as [H0 Hm].
  exists (more_terms more
            (ffmpeg.Between (rounded (SpeechStartAt s0))
                            (rounded (SpeechEndAt s0)))).
  split; [|now rewrite terms_more].
  unfold af, ffmpeg.read_chain. rewrite expect_app, join_cuts.
  unfold ffmpeg.read_expr. rewrite (read_between_cut _ _ H0).
  rewrite read_more_text;
    [|apply more_text_length|assumption|reflexivity].
  reflexivity.
Qed.

(** ** What the expression selects *)

Lemma hits_nonneg (l : list (Q * Q)) (t : Q) : (0 <= hits l t)%Q.
Proof.
  induction l as [|lh l IH]; cbn [hits]; [lra|].
  destruct (_ && _); lra.
Qed.

Lemma hits_app (a b : list (Q * Q)) (t : Q) :
  (hits (a ++ b) t == hits a t + hits b t)%Q.
Proof.
  induction a as [|lh a IH]; cbn [hits List.app]; [ring|].
  rewrite IH. ring.
Qed.

Lemma eval_hits (e : ffmpeg.Expr) (t : Q) :
  (ffmpeg.eval e t == hits (ffmpeg.terms e) t)%Q.
Proof.
  induction e as [lo hi|e1 IH1 e2 IH2]; cbn [ffmpeg.eval ffmpeg.terms].
  - cbn. ring.
  - rewrite hits_app, IH1, IH2. reflexivity.
Qed.

Lemma hits_positive (l : list (Q * Q)) (t : Q) :
  (0 < hits l t)%Q
  <-> exists lh, In lh l /\ (fst lh <= t)%Q /\ (t <= snd lh)%Q.
Proof.
  induction l as [|lh l IH]; cbn [hits In].
  - split; [lra|]. intros (x & [] & _).
  - pose proof (hits_nonneg l t) as Hn.
    destruct (Qle_bool (fst lh) t && Qle_bool t (snd lh)) eqn:E.
    + split; [intros _|lra]. exists lh. split; [now left|].
      apply andb_true_iff in E. now rewrite <- !Qle_bool_iff.
    + split.
      * intros H. assert (H' : (0 < hits l t)%Q) by lra.
        apply IH in H'. destruct H' as (x & Hin & Hx). exists x. tauto.
      * intros (x & [<- | Hin] & Hlo & Hhi).
        -- apply andb_false_iff in E. rewrite <- !Qle_bool_iff in *.
           destruct E as [E | E]; congruence.
        -- assert (H' : (0 < hits l t)%Q) by (apply IH; exists x; tauto). lra.
Qed.

Lemma selects_iff (e : ffmpeg.Expr) (t : Q) :
  ffmpeg.selects e t = true <-> (0 < ffmpeg.eval e t)%Q.
Proof.
  unfold ffmpeg.selects.
  pose proof (hits_nonneg (ffmpeg.terms e) t) as Hn.
  rewrite <- eval_hits in Hn.
  destruct (Qeq_bool (ffmpeg.eval e t) 0) eqn:E; cbn [negb].
  - apply Qeq_bool_eq in E. split; [intros H; discriminate H|lra].
  - apply Qeq_bool_neq in E. split; [intros _; lra|reflexivity].
Qed.

Lemma selects_written (e : ffmpeg.Expr) (segs : list Segment) (t : Q) :
  ffmpeg.terms e = map written segs ->
  ffmpeg.selects e t = true
  <-> exists s, In s segs
                /\ (rounded (SpeechStartAt s) <= t)%Q
                /\ (t <= rounded (SpeechEndAt s))%Q.
Proof.
  intros Ht. rewrite selects_iff, eval_hits, hits_positive, Ht.
  split.
  - intros (lh & Hin & H). apply in_map_iff in Hin.
    destruct Hin as (s & <- & Hs). exists s. tauto.
  - intros (s & Hs & H). exists (written s). split; [now apply in_map|exact H].
Qed.

(** The selected times lie between the intervals shortened and the
    intervals lengthened by half a hundredth at each end. *)
Lemma written_inner (segs : list Segment) (s : Segment) (t : Q) :
  forallb finite_segment segs = true ->
  In s segs ->
  (seg_start s + (1 # 200) <= t)%Q ->
  (t <= seg_end s - (1 # 200))%Q ->
  (rounded (SpeechStartAt s) <= t)%Q /\ (t <= rounded (SpeechEndAt s))%Q.
Proof.
  intros Hfin Hin Hlo Hhi.
  rewrite forallb_forall in Hfin. specialize (Hfin s Hin).
  apply andb_true_iff in Hfin. destruct Hfin as [H1 H2].
  pose proof (rounded_bounds _ H1) as [_ Hs].
  pose proof (rounded_bounds _ H2) as [He _].
  unfold seg_start, seg_end in *. split; lra.
Qed.

Lemma written_outer (segs : list Segment) (s : Segment) (t : Q) :
  forallb finite_segment segs = true ->
  In s segs ->
  (rounded (SpeechStartAt s) <= t)%Q ->
  (t <= rounded (SpeechEndAt s))%Q ->
  (seg_start s - (1 # 200) <= t)%Q /\ (t <= seg_end s + (1 # 200))%Q.
Proof.
  intros Hfin Hin Hlo Hhi.
  rewrite forallb_forall in Hfin. specialize (Hfin s Hin).
  apply andb_true_iff in Hfin. destruct Hfin as [H1 H2].
  pose proof (rounded_bounds _ H1) as [Hs _].
  pose proof (rounded_bounds _ H2) as [_ He].
  unfold seg_start, seg_end in *. split; lra.
Qed.

Lemma finite_two_decimals (x : spec_float) :
  is_finite x = true -> two_decimals x.
Proof.
  intros H. split.
  - destruct x as [s|s| |s m e]; try discriminate.
    + exists (fmt.sign s ++ "0"), "0"%char, "0"%char.
      destruct s; repeat split.
    + destruct (fixed2_shape (fmt.hundredths m e)) as (d1 & d2 & Hs & H1 & H2).
      exists (fmt.sign s ++ fmt.dec (fmt.hundredths m e / 100)), d1, d2.
      cbn [fmt.Sprintf_2f]. rewrite Hs. destruct s; repeat split; assumption.
  - destruct (rounded_hundredth x) as [k Hk]. exists k.
    rewrite <- Hk. split; [|now apply rounded_close].
    rewrite <- (sapp_nil_r (fmt.Sprintf_2f x)).
    now apply read_number_Sprintf_2f.
Qed.

(** C6: the filter compiled from a non-empty list of segments with
    finite times is read by the encoder as [aselect] of a sum of
    between-terms, one per segment and in their order, followed by the
    [asetpts=N/SR/TB] renumbering; the bounds of each term are the start
    and the end of its segment rounded to hundredths; the expression
    selects a time exactly when the time lies between the bounds of some
    term; and every start and end is written with two digits after the
    point, the numeral read back being within half a hundredth of the
    value, so that the selected times contain every segment shortened by
    5 ms at each end and lie in the segments lengthened by 5 ms at each
    end. *)
Theorem filter_selects_the_segments (segs : list Segment) :
  segs <> [] ->
  forallb finite_segment segs = true ->
  exists e : ffmpeg.Expr,
    ffmpeg.read_chain (af segs)
    = Some [ffmpeg.Aselect e; ffmpeg.Asetpts "N/SR/TB"]
    /\ ffmpeg.terms e
       = map (fun s => (rounded (SpeechStartAt s), rounded (SpeechEndAt s))) segs
    /\ (forall t : Q,
          ffmpeg.selects e t = true
          <-> exists lo hi : Q,
                In (lo, hi) (ffmpeg.terms e) /\ (lo <= t)%Q /\ (t <= hi)%Q)
    /\ Forall (fun s => two_decimals (SpeechStartAt s)
                        /\ two_decimals (SpeechEndAt s)) segs
    /\ (forall t : Q,
          (exists s, In s segs
                     /\ (seg_start s + (1 # 200) <= t)%Q
                     /\ (t <= seg_end s - (1 # 200))%Q) ->
          ffmpeg.selects e t = true)
    /\ (forall t : Q,
          ffmpeg.selects e t = true ->
          exists s, In s segs
                    /\ (seg_start s - (1 # 200) <= t)%Q
                    /\ (t <= seg_end s + (1 # 200))%Q).
Proof.
  intros Hne Hfin.
  destruct (read_chain_af segs Hne Hfin) as (e & Hread & Ht).
  exists e. split; [exact Hread|]. split; [exact Ht|].
  split; [|split; [|split]].
  - intros t. rewrite selects_iff, eval_hits, hits_positive.
    split.
    + intros ([lo hi] & Hin & H). exists lo, hi. tauto.
    + intros (lo & hi & Hin & H). exists (lo, hi). tauto.
  - apply Forall_forall. intros s Hs.
    rewrite forallb_forall in Hfin. specialize (Hfin s Hs).
    apply andb_true_iff in Hfin. destruct Hfin as [H1 H2].
    split; now apply finite_two_decimals.
  - intros t (s & Hin & Hlo & Hhi).
    apply (selects_written e segs t Ht). exists s. split; [exact Hin|].
    now apply (written_inner segs).
  - intros t H. apply (selects_written e segs t Ht) in H.
    destruct H as (s & Hin & Hlo & Hhi). exists s. split; [exact Hin|].
    now apply (written_outer segs).
Qed.

(** ** Overlapping segments in the expression *)




(** ** The output name *)

Lemma Clean_nonempty (path : string) : filepath.Clean path <> "".
Proof.
  unfold filepath.Clean. destruct path as [|c path']; [discriminate|].
  destruct (filepath.IsPathSeparator c); [discriminate|].
  destruct (String.eqb _ "") eqn:E; [discriminate|].
  now apply String.eqb_neq in E.
Qed.

Lemma Join_pair (dir name : string) :
  dir <> "" -> filepath.Join [dir; name] = filepath.Clean (dir ++ "/" ++ name).
Proof.
  intros H. cbn [filepath.Join].
  apply String.eqb_neq in H. rewrite H. reflexivity.
Qed.

(** C5: the output name is [filepath.Join] of the output directory, or of
    the directory of the input path when the output directory is empty,
    and the base name of the input path without its extension followed by
    the suffix, a dot and the format; the directory is never empty, so
    this is the cleaned path [dir/name]; and the two examples of the
    specification come out as written. *)
Theorem output_name_resolved :
  (forall inputPath outputDir outputSuffix outputFormat : string,
      let dir :=
        if String.eqb outputDir "" then filepath.Dir inputPath else outputDir in
      let name :=
        strings.TrimSuffix (filepath.Base inputPath) (filepath.Ext inputPath)
        ++ outputSuffix ++ "." ++ outputFormat in
      outName inputPath outputDir outputSuffix outputFormat
      = filepath.Join [dir; name]
      /\ outName inputPath outputDir outputSuffix outputFormat
         = filepath.Clean (dir ++ "/" ++ name))
  /\ outName "/a/b/song.wav" "" "_condensed" "mp3" = "/a/b/song_condensed.mp3"
  /\ outName "/a/b/song.wav" "/out" "_c" "wav" = "/out/song_c.wav".
Proof.
  split; [|split; reflexivity].
  intros inputPath outputDir outputSuffix outputFormat dir name.
  split; [reflexivity|].
  unfold outName. fold dir. fold name. apply Join_pair.
  unfold dir. destruct (String.eqb outputDir "") eqn:E.
  - apply Clean_nonempty.
  - now apply String.eqb_neq in E.
Qed.

(** ** The pipeline and the batch *)

Section PipelineFacts.

Variable World : Type.
Variable exec_Run :
  string -> list string -> World -> error * string * string * World.
Variable exec_CombinedOutput :
  string -> list string -> World -> string * error * World.
Variable speech_NewDetector : DetectorConfig World -> World -> error * World.
Variable speech_Detect :
  Logger -> DetectorConfig World -> list spec_float -> World ->
  list spec_float * (list Segment * error) * World.

Local Abbreviation condenseFile' :=
  (condenseFile World exec_Run exec_CombinedOutput speech_NewDetector speech_Detect).
Local Abbreviation CondenseFiles' :=
  (CondenseFiles World exec_Run exec_CombinedOutput speech_NewDetector speech_Detect).
Local Abbreviation CondenseWithOptions' :=
  (CondenseWithOptions World exec_Run exec_CombinedOutput speech_NewDetector speech_Detect).
Local Abbreviation detects' := (detects exec_Run speech_NewDetector speech_Detect).
Local Abbreviation stage_results' :=
  (stage_results World exec_Run exec_CombinedOutput speech_NewDetector
     speech_Detect).
Local Abbreviation batch_results' :=
  (batch_results World exec_Run exec_CombinedOutput speech_NewDetector
     speech_Detect).

(** *** Decoding *)

Lemma read_samples_enough (n : nat) :
  forall (i : Z) (data : list ascii),
    (4 * n <= List.length data)%nat ->
    snd (read_samples n i data) = None.
Proof.
  induction n as [|n IH]; intros i data Hlen; [reflexivity|].
  destruct data as [|b0 [|b1 [|b2 [|b3 rest]]]]; simpl in Hlen; try lia.
  cbn [read_samples binary_Read].
  specialize (IH (i + 1)%Z rest).
  destruct (read_samples n (i + 1) rest) as [vs [e|]]; simpl in *.
  - assert (Some e = None) by (apply IH; lia). discriminate.
  - reflexivity.
Qed.

Lemma read_samples_of (stdout : string) :
  read_samples (List.length (filepath.chars stdout) / 4) 0 (filepath.chars stdout)
  = (samples_of stdout, None).
Proof.
  unfold samples_of.
  pose proof (read_samples_enough
                (List.length (filepath.chars stdout) / 4) 0
                (filepath.chars stdout)) as H.
  destruct (read_samples _ 0 _) as [vs e]; cbn [fst snd] in *.
  rewrite H; [reflexivity|].
  pose proof (Nat.Div0.mul_div_le (List.length (filepath.chars stdout)) 4).
  lia.
Qed.

(** *** One job, path by path *)

Ltac run_step :=
  cbv beta iota zeta delta
    [condenseFile CondenseWithOptions bind ret call
     act defer decodeToFloat32 NewDetector Detect Destroy CombinedOutput
     slog_Default slog_SetDefault EventsEmit];
  cbn [world defaultLogger trace].

Ltac norm_trace :=
  unfold extend, emit_status, emit_terminal, status_event, terminal_event;
  cbn [world defaultLogger trace];
  rewrite <- ?app_assoc; cbn [List.app].

Lemma condenseFile_decode_fails (filePath : string) (options : CondenseOptions)
  (st : St World) (e stdout stderr : string) (w1 : World) :
  exec_Run "ffmpeg" (decode_args filePath sampleRate) (world st)
  = (Some e, stdout, stderr, w1) ->
  condenseFile' filePath options st
  = Some (tt, extend st w1
                [emit_status filePath "pending";
                 emit_status filePath "loading";
                 ARun "ffmpeg" (decode_args filePath sampleRate);
                 emit_terminal filePath
                   (Some ("failed to decode audio file: ffmpeg decode error: "
                          ++ e ++ ", stderr: " ++ stderr))]).
Proof.
  intros Hdec. run_step. rewrite Hdec. norm_trace. reflexivity.
Qed.

Lemma condenseFile_detector_fails (filePath : string) (options : CondenseOptions)
  (st : St World) (e stdout stderr : string) (w1 w2 : World) :
  exec_Run "ffmpeg" (decode_args filePath sampleRate) (world st)
  = (None, stdout, stderr, w1) ->
  speech_NewDetector (app_cfg options) w1 = (Some e, w2) ->
  condenseFile' filePath options st
  = Some (tt, extend st w2
                [emit_status filePath "pending";
                 emit_status filePath "loading";
                 ARun "ffmpeg" (decode_args filePath sampleRate);
                 emit_status filePath "detecting";
                 ANewDetector;
                 emit_terminal filePath
                   (Some ("failed to create speech detector: " ++ e))]).
Proof.
  intros Hdec Hnew. run_step. rewrite Hdec, read_samples_of.
  cbn [world defaultLogger trace]. fold (@app_cfg World options).
  rewrite Hnew. norm_trace. reflexivity.
Qed.

Lemma report_noop (ps : list spec_float) (st : St World) :
  report World (Some (fun (_ : spec_float) (st0 : St World) => st0)) ps st
  = Some (tt, st).
Proof.
  induction ps as [|p ps IH]; [reflexivity|].
  cbn [report]. unfold bind, call. exact IH.
Qed.

Section OneJob.

Variables (filePath : string) (options : CondenseOptions) (st : St World).
Variables (stdout stderr : string) (w1 w2 w3 : World).
Variables (ps : list spec_float) (segs : list Segment).

Hypothesis Hdec :
  exec_Run "ffmpeg" (decode_args filePath sampleRate) (world st)
  = (None, stdout, stderr, w1).
Hypothesis Hnew : speech_NewDetector (app_cfg options) w1 = (None, w2).

Lemma condenseFile_detect_fails (e : string) :
  speech_Detect discard (app_cfg options) (samples_of stdout) w2
  = (ps, (segs, Some e), w3) ->
  condenseFile' filePath options st
  = Some (tt, extend st w3
                [emit_status filePath "pending";
                 emit_status filePath "loading";
                 ARun "ffmpeg" (decode_args filePath sampleRate);
                 emit_status filePath "detecting";
                 ANewDetector;
                 ADetect discard;
                 ADestroy;
                 emit_terminal filePath
                   (Some ("speech detection failed: " ++ e))]).
Proof.
  intros Hdet. run_step. rewrite Hdec, read_samples_of.
  cbn [world defaultLogger trace]. fold (@app_cfg World options).
  rewrite Hnew. cbn [world defaultLogger trace].
  fold discard. rewrite Hdet.
  cbn [world defaultLogger trace ProgressCallback app_cfg].
  rewrite report_noop. norm_trace. reflexivity.
Qed.

Lemma condenseFile_no_speech :
  speech_Detect discard (app_cfg options) (samples_of stdout) w2
  = (ps, ([], None), w3) ->
  condenseFile' filePath options st
  = Some (tt, extend st w3
                [emit_status filePath "pending";
                 emit_status filePath "loading";
                 ARun "ffmpeg" (decode_args filePath sampleRate);
                 emit_status filePath "detecting";
                 ANewDetector;
                 ADetect discard;
                 ADestroy;
                 emit_terminal filePath
                   (Some ("no speech detected in file: " ++ filePath))]).
Proof.
  intros Hdet. run_step. rewrite Hdec, read_samples_of.
  cbn [world defaultLogger trace]. fold (@app_cfg World options).
  rewrite Hnew. cbn [world defaultLogger trace].
  fold discard. rewrite Hdet.
  cbn [world defaultLogger trace ProgressCallback app_cfg].
  rewrite report_noop. cbn [List.length Nat.eqb world defaultLogger trace].
  norm_trace. reflexivity.
Qed.

Lemma condenseFile_exports (output : string) (err : error) (w4 : World) :
  speech_Detect discard (app_cfg options) (samples_of stdout) w2
  = (ps, (segs, None), w3) ->
  segs <> [] ->
  exec_CombinedOutput "ffmpeg"
    (export_args filePath (af segs)
       (outName filePath (OutputDir options) (OutputSuffix options)
          (OutputFormat options))) w3
  = (output, err, w4) ->
  condenseFile' filePath options st
  = Some (tt, extend st w4
                [emit_status filePath "pending";
                 emit_status filePath "loading";
                 ARun "ffmpeg" (decode_args filePath sampleRate);
                 emit_status filePath "detecting";
                 ANewDetector;
                 ADetect discard;
                 emit_status filePath "exporting";
                 ACombinedOutput "ffmpeg"
                   (export_args filePath (af segs)
                      (outName filePath (OutputDir options)
                         (OutputSuffix options) (OutputFormat options)));
                 ADestroy;
                 emit_terminal filePath (export_error output err)]).
Proof.
  intros Hdet Hne Hexp. run_step. rewrite Hdec, read_samples_of.
  cbn [world defaultLogger trace]. fold (@app_cfg World options).
  rewrite Hnew. cbn [world defaultLogger trace].
  fold discard. rewrite Hdet.
  cbn [world defaultLogger trace ProgressCallback app_cfg].
  rewrite report_noop.
  destruct segs as [|s0 rest]; [congruence|].
  cbn [List.length Nat.eqb world defaultLogger trace].
  rewrite Hexp. destruct err as [e|]; norm_trace; reflexivity.
Qed.

End OneJob.

(** *** Every job ends, whatever the collaborators answer *)

Lemma condenseFile_total (filePath : string) (options : CondenseOptions)
  (st : St World) :
  exists (w : World) (acts : list Action) (reached : nat) (err : error),
    condenseFile' filePath options st = Some (tt, extend st w acts)
    /\ emitted acts = job_events filePath reached err
    /\ job_shape reached err
    /\ decoded_files acts = [filePath].
Proof.
  destruct (exec_Run "ffmpeg" (decode_args filePath sampleRate) (world st))
    as [[[derr stdout] stderr] w1] eqn:Hdec.
  destruct derr as [e|].
  { eexists w1, _, 2%nat, (Some _).
    split; [exact (condenseFile_decode_fails _ options _ _ _ _ _ Hdec)|].
    repeat split; try lia; discriminate. }
  destruct (speech_NewDetector (app_cfg options) w1) as [nerr w2] eqn:Hnew.
  destruct nerr as [e|].
  { eexists w2, _, 3%nat, (Some _).
    split; [exact (condenseFile_detector_fails _ _ _ _ _ _ _ _ Hdec Hnew)|].
    repeat split; try lia; discriminate. }
  destruct (speech_Detect discard (app_cfg options) (samples_of stdout) w2)
    as [[ps [segs serr]] w3] eqn:Hdet.
  destruct serr as [e|].
  { eexists w3, _, 3%nat, (Some _).
    split; [exact (condenseFile_detect_fails _ _ _ _ _ _ _ _ _ _ Hdec Hnew _ Hdet)|].
    repeat split; try lia; discriminate. }
  destruct segs as [|s0 rest].
  { eexists w3, _, 3%nat, (Some _).
    split; [exact (condenseFile_no_speech _ _ _ _ _ _ _ _ _ Hdec Hnew Hdet)|].
    repeat split; try lia; discriminate. }
  destruct (exec_CombinedOutput "ffmpeg"
              (export_args filePath (af (s0 :: rest))
                 (outName filePath (OutputDir options) (OutputSuffix options)
                    (OutputFormat options))) w3)
    as [[output xerr] w4] eqn:Hexp.
  eexists w4, _, 4%nat, (export_error output xerr).
  split.
  { refine (condenseFile_exports _ _ _ _ _ _ _ _ _ _ Hdec Hnew _ _ _ Hdet _ Hexp).
    discriminate. }
  repeat split; try lia.
Qed.

Lemma extend_extend (st : St World) (w w' : World) (a b : list Action) :
  extend (extend st w a) w' b = extend st w' (a ++ b)%list.
Proof. unfold extend; cbn [world defaultLogger trace]. now rewrite app_assoc. Qed.

Lemma since_extend (st : St World) (w : World) (acts : list Action) :
  since st (extend st w acts) = acts.
Proof.
  unfold since, extend; cbn [trace].
  rewrite skipn_app, skipn_all, Nat.sub_diag. reflexivity.
Qed.

Lemma emitted_app (a b : list Action) :
  emitted (a ++ b) = (emitted a ++ emitted b)%list.
Proof. apply flat_map_app. Qed.

Lemma decoded_files_app (a b : list Action) :
  decoded_files (a ++ b) = (decoded_files a ++ decoded_files b)%list.
Proof. apply flat_map_app. Qed.

Lemma CondenseFiles_total (options : CondenseOptions) (filePaths : list string) :
  forall st : St World,
  exists (w : World) (acts : list Action) (runs : list JobRun),
    CondenseFiles' filePaths options st = Some (tt, extend st w acts)
    /\ map job_file runs = filePaths
    /\ Forall job_ok runs
    /\ emitted acts = flat_map job_stream runs
    /\ decoded_files acts = filePaths.
Proof.
  induction filePaths as [|f rest IH]; intros st.
  - exists (world st), [], []. repeat split; [|constructor].
    unfold extend. rewrite app_nil_r. destruct st; reflexivity.
  - destruct (condenseFile_total f options st)
      as (w1 & a1 & reached & err & Hrun & Hev & Hshape & Hdec).
    destruct (IH (extend st w1 a1)) as (w2 & a2 & runs & Hrest & Hf & Hok & Hev2 & Hdec2).
    exists w2, (a1 ++ a2)%list,
      ({| job_file := f; job_reached := reached; job_err := err |} :: runs).
    split.
    { change (CondenseFiles' (f :: rest) options st)
        with (bind World (condenseFile' f options)
                (fun _ => CondenseFiles' rest options) st).
      unfold bind. rewrite Hrun, Hrest, extend_extend. reflexivity. }
    split; [cbn [map job_file]; now rewrite Hf|].
    split; [constructor; [exact Hshape|exact Hok]|].
    split.
    + rewrite emitted_app, Hev, Hev2. reflexivity.
    + rewrite decoded_files_app, Hdec, Hdec2. reflexivity.
Qed.

Lemma job_events_terminal (filePath : string) (reached : nat) (err : error) :
  (reached <= 4)%nat ->
  filter is_terminal (job_events filePath reached err)
  = [terminal_event filePath err].
Proof.
  intros H. do 5 (destruct reached as [|reached]; [destruct err; reflexivity|]).
  lia.
Qed.

Lemma job_events_nodup (filePath : string) (reached : nat) (err : error) :
  (reached <= 4)%nat ->
  NoDup (map Status (job_events filePath reached err)).
Proof.
  intros H.
  do 5 (destruct reached as [|reached];
        [destruct err; cbn; repeat constructor; cbn; intuition discriminate|]).
  lia.
Qed.

(** *** The stream of a job follows the first stage that fails *)

Lemma condenseFile_staged (filePath : string) (options : CondenseOptions)
  (st : St World) :
  exists (w : World) (acts : list Action) (reached : nat) (err : error),
    condenseFile' filePath options st = Some (tt, extend st w acts)
    /\ emitted acts = job_events filePath reached err
    /\ job_shape reached err
    /\ stage_results' filePath options (world st) reached (failed err) w.
Proof.
  destruct (exec_Run "ffmpeg" (decode_args filePath sampleRate) (world st))
    as [[[derr stdout] stderr] w1] eqn:Hdec.
  destruct derr as [e|].
  { eexists w1, _, 2%nat, (Some _).
    split; [exact (condenseFile_decode_fails _ options _ _ _ _ _ Hdec)|].
    split; [reflexivity|]. split; [split; [lia|discriminate]|].
    exact (loading_fails _ _ _ _ _ _ _ _ _ _ _ _ Hdec). }
  destruct (speech_NewDetector (app_cfg options) w1) as [nerr w2] eqn:Hnew.
  destruct nerr as [e|].
  { eexists w2, _, 3%nat, (Some _).
    split; [exact (condenseFile_detector_fails _ _ _ _ _ _ _ _ Hdec Hnew)|].
    split; [reflexivity|]. split; [split; [lia|discriminate]|].
    exact (detector_fails _ _ _ _ _ _ _ _ _ _ _ _ _ Hdec Hnew). }
  destruct (speech_Detect discard (app_cfg options) (samples_of stdout) w2)
    as [[ps [segs serr]] w3] eqn:Hdet.
  destruct serr as [e|].
  { eexists w3, _, 3%nat, (Some _).
    split; [exact (condenseFile_detect_fails _ _ _ _ _ _ _ _ _ _ Hdec Hnew _ Hdet)|].
    split; [reflexivity|]. split; [split; [lia|discriminate]|].
    exact (detecting_fails _ _ _ _ _ _ _ _ _ _ _ _ _ _ _ _ Hdec Hnew Hdet). }
  assert (Hsegs : detects' filePath options (world st) segs w3)
    by (exists stdout, stderr, w1, w2, ps; repeat split; assumption).
  destruct segs as [|s0 rest].
  { eexists w3, _, 3%nat, (Some _).
    split; [exact (condenseFile_no_speech _ _ _ _ _ _ _ _ _ Hdec Hnew Hdet)|].
    split; [reflexivity|]. split; [split; [lia|discriminate]|].
    exact (nothing_detected _ _ _ _ _ _ _ _ _ Hsegs). }
  destruct (exec_CombinedOutput "ffmpeg"
              (export_args filePath (af (s0 :: rest))
                 (outName filePath (OutputDir options) (OutputSuffix options)
                    (OutputFormat options))) w3)
    as [[output xerr] w4] eqn:Hexp.
  eexists w4, _, 4%nat, (export_error output xerr).
  split.
  { refine (condenseFile_exports _ _ _ _ _ _ _ _ _ _ Hdec Hnew _ _ _ Hdet _ Hexp).
    discriminate. }
  split; [reflexivity|]. split; [split; [lia|reflexivity]|].
  destruct xerr as [e|]; cbn [export_error failed].
  - refine (exporting_fails _ _ _ _ _ _ _ _ _ _ _ _ _ Hsegs _ Hexp).
    discriminate.
  - refine (all_stages_done _ _ _ _ _ _ _ _ _ _ _ _ Hsegs _ Hexp).
    discriminate.
Qed.

Lemma CondenseFiles_staged (options : CondenseOptions) (filePaths : list string) :
  forall st : St World,
  exists (w : World) (acts : list Action) (runs : list JobRun),
    CondenseFiles' filePaths options st = Some (tt, extend st w acts)
    /\ map job_file runs = filePaths
    /\ Forall job_ok runs
    /\ emitted acts = flat_map job_stream runs
    /\ batch_results' options (world st) runs w.
Proof.
  induction filePaths as [|f rest IH]; intros st.
  - exists (world st), [], []. repeat split; [|constructor|constructor].
    unfold extend. rewrite app_nil_r. destruct st; reflexivity.
  - destruct (condenseFile_staged f options st)
      as (w1 & a1 & reached & err & Hrun & Hev & Hshape & Hst).
    destruct (IH (extend st w1 a1))
      as (w2 & a2 & runs & Hrest & Hf & Hok & Hev2 & Hb).
    exists w2, (a1 ++ a2)%list,
      ({| job_file := f; job_reached := reached; job_err := err |} :: runs).
    split.
    { change (CondenseFiles' (f :: rest) options st)
        with (bind World (condenseFile' f options)
                (fun _ => CondenseFiles' rest options) st).
      unfold bind. rewrite Hrun, Hrest, extend_extend. reflexivity. }
    split; [cbn [map job_file]; now rewrite Hf|].
    split; [constructor; [exact Hshape|exact Hok]|].
    split; [rewrite emitted_app, Hev, Hev2; reflexivity|].
    eapply batch_job; [exact Hst|exact Hb].
Qed.

(** What the collaborators answer in a world settles how the stages
    go. *)
Lemma stage_results_unique (filePath : string) (options : CondenseOptions)
  (w : World) (n n' : nat) (b b' : bool) (w1 w1' : World) :
  stage_results' filePath options w n b w1 ->
  stage_results' filePath options w n' b' w1' ->
  n = n' /\ b = b' /\ w1 = w1'.
Proof.
  intros H H'.
  destruct H; destruct H';
    repeat match goal with
           | H : detects _ _ _ _ _ _ _ _ |- _ =>
               destruct H as (? & ? & ? & ? & ? & ? & ? & ?)
           end;
    repeat match goal with
           | H1 : ?f = _, H2 : ?f = _ |- _ =>
               rewrite H1 in H2; inversion H2; subst; clear H2
           end;
    try congruence; repeat split; reflexivity.
Qed.

(** C2: the status events of a batch are, job after job in the order of
    the list, the events of each job: pending and loading, then the
    stages it entered in their order, then one terminal event; no
    status occurs twice in a job, and a job's events all come after the
    terminal event of the job before it.  The stages a job enters and
    its end are those the answers of the decoder, the detector and the
    encoder give, in the world the job before it left: a job whose
    decoder fails ends in error after loading, one whose detector fails
    or finds nothing ends in error after detecting, one whose export
    fails ends in error after exporting, and a job is completed exactly
    when none of them fails. *)
Theorem status_stream_is_linear (filePaths : list string)
  (options : CondenseOptions) (st : St World) :
  exists (st' : St World) (runs : list JobRun),
    CondenseFiles' filePaths options st = Some (tt, st')
    /\ map job_file runs = filePaths
    /\ emitted (since st st') = flat_map job_stream runs
    /\ batch_results World exec_Run exec_CombinedOutput speech_NewDetector
         speech_Detect options (world st) runs (world st')
    /\ Forall (fun j =>
                 job_ok j
                 /\ job_stream j
                    = (map (status_event (job_file j))
                           (firstn (job_reached j)
                              ["pending"; "loading"; "detecting"; "exporting"])
                       ++ [terminal_event (job_file j) (job_err j)])%list
                 /\ filter is_terminal (job_stream j)
                    = [terminal_event (job_file j) (job_err j)]
                 /\ NoDup (map Status (job_stream j)))
              runs.
Proof.
  destruct (CondenseFiles_staged options filePaths st)
    as (w & acts & runs & Hrun & Hf & Hok & Hev & Hb).
  exists (extend st w acts), runs.
  rewrite since_extend.
  repeat split; try assumption.
  apply Forall_forall. intros j Hj.
  rewrite Forall_forall in Hok. specialize (Hok j Hj).
  destruct Hok as [[Hlo Hhi] Hdone].
  unfold job_stream.
  repeat split; try assumption.
  - now apply job_events_terminal.
  - now apply job_events_nodup.
Qed.

(** C3: a batch always returns, without a value and without a panic,
    after every job of the list was started (its file given to the
    decoder) and brought to its terminal event, in the order of the
    list, whichever jobs ended in error. *)
Theorem batch_attempts_every_job (filePaths : list string)
  (options : CondenseOptions) (st : St World) :
  exists st' : St World,
    CondenseFiles' filePaths options st = Some (tt, st')
    /\ decoded_files (since st st') = filePaths
    /\ map FilePath (filter is_terminal (emitted (since st st'))) = filePaths.
Proof.
  destruct (CondenseFiles_total options filePaths st)
    as (w & acts & runs & Hrun & Hf & Hok & Hev & Hdec).
  exists (extend st w acts). rewrite since_extend.
  repeat split; try assumption.
  rewrite Hev, <- Hf. clear - Hok.
  induction Hok as [|j runs Hj _ IH]; [reflexivity|].
  cbn [flat_map map]. rewrite filter_app, map_app, IH.
  destruct Hj as [[_ Hhi] _]. unfold job_stream.
  rewrite job_events_terminal by assumption.
  destruct (job_err j); reflexivity.
Qed.

(** *** What is exported *)

Lemma condenseFile_detected (filePath : string) (options : CondenseOptions)
  (st : St World) (segs : list Segment) (w3 : World) :
  detects' filePath options (world st) segs w3 ->
  segs <> [] ->
  exists (st' : St World) (err : error),
    condenseFile' filePath options st = Some (tt, st')
    /\ exports (since st st')
       = [export_args filePath (af segs)
            (outName filePath (OutputDir options) (OutputSuffix options)
               (OutputFormat options))]
    /\ emitted (since st st') = job_events filePath 4 err
    /\ detect_loggers (since st st') = [discard]
    /\ defaultLogger st' = defaultLogger st.
Proof.
  intros (stdout & stderr & w1 & w2 & ps & Hdec & Hnew & Hdet) Hne.
  destruct (exec_CombinedOutput "ffmpeg"
              (export_args filePath (af segs)
                 (outName filePath (OutputDir options) (OutputSuffix options)
                    (OutputFormat options))) w3)
    as [[output xerr] w4] eqn:Hexp.
  eexists _, (export_error output xerr). split.
  - exact (condenseFile_exports _ _ _ _ _ _ _ _ _ _ Hdec Hnew _ _ _ Hdet Hne Hexp).
  - rewrite since_extend. repeat split.
Qed.

Lemma condenseFile_silent (filePath : string) (options : CondenseOptions)
  (st : St World) (w3 : World) :
  detects' filePath options (world st) [] w3 ->
  exists st' : St World,
    condenseFile' filePath options st = Some (tt, st')
    /\ since st st'
       = [emit_status filePath "pending";
          emit_status filePath "loading";
          ARun "ffmpeg" (decode_args filePath sampleRate);
          emit_status filePath "detecting";
          ANewDetector;
          ADetect discard;
          ADestroy;
          emit_terminal filePath
            (Some ("no speech detected in file: " ++ filePath))].
Proof.
  intros (stdout & stderr & w1 & w2 & ps & Hdec & Hnew & Hdet).
  eexists. split.
  - exact (condenseFile_no_speech _ _ _ _ _ _ _ _ _ Hdec Hnew Hdet).
  - now rewrite since_extend.
Qed.

(** C4: when decoding succeeds and the detector returns no segment, the
    job ends with the error event whose message is that no speech was
    detected in the file; its status events are pending, loading,
    detecting and error, none is completed or exporting, and no export
    is run. *)
Theorem no_speech_ends_in_error (filePath : string)
  (options : CondenseOptions) (st : St World) (w3 : World) :
  detects' filePath options (world st) [] w3 ->
  exists st' : St World,
    condenseFile' filePath options st = Some (tt, st')
    /\ filter is_terminal (emitted (since st st'))
       = [{| FilePath := filePath;
             Status := "error";
             Error := "no speech detected in file: " ++ filePath |}]
    /\ map Status (emitted (since st st'))
       = ["pending"; "loading"; "detecting"; "error"]
    /\ exports (since st st') = [].
Proof.
  intros H. destruct (condenseFile_silent _ _ _ _ H) as (st' & Hrun & Hacts).
  exists st'. rewrite Hacts. repeat split. exact Hrun.
Qed.

(** C1, as the program has it: when the detector returns at least one
    segment, the filter the export runs with is compiled from the
    returned sequence itself, one between-term per returned segment and
    in the returned order; nothing is sorted or merged on the way. *)
Theorem filter_compiled_from_detected (filePath : string)
  (options : CondenseOptions) (st : St World) (segs : list Segment)
  (w3 : World) :
  detects' filePath options (world st) segs w3 ->
  (1 <= List.length segs)%nat ->
  exists st' : St World,
    condenseFile' filePath options st = Some (tt, st')
    /\ map filter_arg (exports (since st st')) = [af segs]
    /\ af segs
       = "aselect='" ++ String.concat "+" (cuts segs) ++ "',asetpts=N/SR/TB"
    /\ List.length (cuts segs) = List.length segs
    /\ (forall (i : nat) (s : Segment),
          nth_error segs i = Some s -> nth_error (cuts segs) i = Some (cut s)).
Proof.
  intros H Hlen.
  assert (Hne : segs <> []) by (destruct segs; [simpl in Hlen; lia|discriminate]).
  destruct (condenseFile_detected _ _ _ _ _ H Hne)
    as (st' & err & Hrun & Hexp & _).
  exists st'. rewrite Hexp. repeat split.
  - exact Hrun.
  - unfold cuts. apply length_map.
  - intros i s Hi. unfold cuts. now apply map_nth_error.
Qed.


Lemma same_segments_eq (a b : list Segment) :
  Forall2 same_segment a b -> a = b.
Proof.
  induction 1 as [|x y a b [Hs He] _ IH]; [reflexivity|].
  destruct x, y; cbn in Hs, He. now subst.
Qed.

(** C7: two jobs, on any files, options, worlds and process states,
    whose detectors return element-wise identical segment sequences run
    their exports with the same filter string. *)
Theorem filter_depends_on_segments_only
  (filePath1 filePath2 : string) (options1 options2 : CondenseOptions)
  (st1 st2 : St World) (segs1 segs2 : list Segment) (w1 w2 : World) :
  detects' filePath1 options1 (world st1) segs1 w1 ->
  detects' filePath2 options2 (world st2) segs2 w2 ->
  segs1 <> [] ->
  Forall2 same_segment segs1 segs2 ->
  exists st1' st2' : St World,
    condenseFile' filePath1 options1 st1 = Some (tt, st1')
    /\ condenseFile' filePath2 options2 st2 = Some (tt, st2')
    /\ map filter_arg (exports (since st1 st1')) = [af segs1]
    /\ map filter_arg (exports (since st2 st2')) = [af segs2]
    /\ af segs1 = af segs2.
Proof.
  intros H1 H2 Hne Hsame.
  pose proof (same_segments_eq _ _ Hsame) as Heq. subst segs2.
  destruct (condenseFile_detected _ _ _ _ _ H1 Hne) as (st1' & e1 & R1 & X1 & _).
  destruct (condenseFile_detected _ _ _ _ _ H2 Hne) as (st2' & e2 & R2 & X2 & _).
  exists st1', st2'. rewrite X1, X2. repeat split; assumption.
Qed.


(** *** Callbacks and the default logger *)

Lemma report_returns (g : spec_float -> St World -> St World)
  (ps : list spec_float) :
  forall st : St World, exists st', report World (Some g) ps st = Some (tt, st').
Proof.
  induction ps as [|p ps IH]; intros st; [eexists; reflexivity|].
  cbn [report]. unfold bind, call. apply IH.
Qed.

Lemma CondenseWithOptions_returns
  (inFile outDir outSuffix outFormat : string) (threshold : spec_float)
  (minSilenceDuration padMs : Z)
  (gp : spec_float -> St World -> St World)
  (gs : string -> St World -> St World) (st : St World) :
  exists (r : error) (st' : St World),
    CondenseWithOptions' inFile outDir outSuffix outFormat threshold
      minSilenceDuration padMs (Some gp) (Some gs) st = Some (r, st')
    /\ ((forall s st0, defaultLogger (gs s st0) = defaultLogger st0) ->
        defaultLogger st' = defaultLogger st).
Proof.
  cbv beta iota zeta delta
    [CondenseWithOptions bind ret call
     act defer decodeToFloat32 NewDetector Detect Destroy CombinedOutput
     slog_Default slog_SetDefault].
  cbn [world defaultLogger trace].
  destruct (exec_Run _ _ _) as [[[derr out] serr] w1].
  cbn [world defaultLogger trace].
  destruct derr as [e|].
  { do 2 eexists. split; [reflexivity|]. intros Hs. cbn [defaultLogger]. apply Hs. }
  rewrite read_samples_of. cbn [world defaultLogger trace].
  destruct (speech_NewDetector _ _) as [nerr w2].
  cbn [world defaultLogger trace].
  destruct nerr as [e|].
  { do 2 eexists. split; [reflexivity|]. intros Hs. cbn [defaultLogger].
    now rewrite !Hs. }
  destruct (speech_Detect _ _ _ _) as [[ps [segments serr']] w3].
  cbn [ProgressCallback].
  match goal with
  | |- context [report World (Some gp) ps ?s] =>
      destruct (report_returns gp ps s) as [st3 ->]
  end.
  cbn [world defaultLogger trace].
  destruct serr' as [e|].
  { do 2 eexists. split; [reflexivity|]. intros Hs. cbn [defaultLogger].
    now rewrite !Hs. }
  destruct (List.length segments =? 0)%nat.
  { do 2 eexists. split; [reflexivity|]. intros Hs. cbn [defaultLogger].
    now rewrite !Hs. }
  cbn [world defaultLogger trace].
  destruct (exec_CombinedOutput _ _ _) as [[output xerr] w4].
  cbn [world defaultLogger trace].
  destruct xerr as [e|];
    (do 2 eexists; split; [reflexivity|]; intros Hs; cbn [defaultLogger];
     now rewrite !Hs).
Qed.

(** C9: a nil progress callback and a nil status callback each behave
    as the callback that does nothing, and whatever callbacks are given
    the call returns a result: it never calls a nil func value, which
    would end it in a panic. *)
Theorem nil_callbacks_are_no_ops
  (inFile outDir outSuffix outFormat : string) (threshold : spec_float)
  (minSilenceDuration padMs : Z)
  (progressCallback : func World spec_float)
  (statusCallback : StatusCallback World) (st : St World) :
  CondenseWithOptions' inFile outDir outSuffix outFormat threshold
    minSilenceDuration padMs None statusCallback st
  = CondenseWithOptions' inFile outDir outSuffix outFormat threshold
      minSilenceDuration padMs
      (Some (fun (_ : spec_float) (st0 : St World) => st0)) statusCallback st
  /\ CondenseWithOptions' inFile outDir outSuffix outFormat threshold
       minSilenceDuration padMs progressCallback None st
     = CondenseWithOptions' inFile outDir outSuffix outFormat threshold
         minSilenceDuration padMs progressCallback
         (Some (fun (_ : string) (st0 : St World) => st0)) st
  /\ exists (r : error) (st' : St World),
       CondenseWithOptions' inFile outDir outSuffix outFormat threshold
         minSilenceDuration padMs progressCallback statusCallback st
       = Some (r, st').
Proof.
  split; [reflexivity|]. split; [reflexivity|].
  set (gp := match progressCallback with
             | Some g => g
             | None => fun (_ : spec_float) (st0 : St World) => st0
             end).
  set (gs := match statusCallback with
             | Some g => g
             | None => fun (_ : string) (st0 : St World) => st0
             end).
  destruct (CondenseWithOptions_returns inFile outDir outSuffix outFormat
              threshold minSilenceDuration padMs gp gs st)
    as (r & st' & Hrun & _).
  exists r, st'. rewrite <- Hrun. unfold gp, gs.
  destruct progressCallback, statusCallback; reflexivity.
Qed.




End PipelineFacts.

(** ** The scripted world: examples and instances *)

(** A batch of four files: the second is silent, the third cannot be
    decoded; the first and the last still complete. *)
Example batch_with_failures :
  option_map (fun r => map (fun d => (FilePath d, Status d)) (emitted (trace (snd r))))
    (script_CondenseFiles ["a.wav"; "quiet.wav"; "missing.wav"; "b.wav"] options0
       (start [[seg 1 2]; []; [seg 3 4]]))
  = Some [("a.wav", "pending"); ("a.wav", "loading"); ("a.wav", "detecting");
          ("a.wav", "exporting"); ("a.wav", "completed");
          ("quiet.wav", "pending"); ("quiet.wav", "loading");
          ("quiet.wav", "detecting"); ("quiet.wav", "error");
          ("missing.wav", "pending"); ("missing.wav", "loading");
          ("missing.wav", "error");
          ("b.wav", "pending"); ("b.wav", "loading"); ("b.wav", "detecting");
          ("b.wav", "exporting"); ("b.wav", "completed")].
Proof. vm_compute. reflexivity. Qed.

Example union_measure_examples :
  (union_measure [seg 1 3; seg 2 4] == 3)%Q
  /\ (union_measure [seg 1 3; seg 2 4; seg 10 11] == 4)%Q
  /\ (union_measure [seg 5 6; seg 1 2] == 2)%Q.
Proof. repeat split; vm_compute; reflexivity. Qed.

(** C1 fails on the program.  On an unsorted and on an overlapping
    sequence the export runs with the filter of the segments as the
    detector gave them: the first list is not sorted, the second overlaps,
    and in both cases the filter is not the one of the validated list,
    which would be sorted in the first case and merged into one segment in
    the second. *)
Lemma unvalidated_segments_reach_the_filter :
  (exists st',
      script_condenseFile "/a/b/song.wav" options0 (start [[seg 5 6; seg 1 2]])
      = Some (tt, st')
      /\ map filter_arg (exports (trace st'))
         = ["aselect='between(t,5.00,6.00)+between(t,1.00,2.00)',asetpts=N/SR/TB"]
      /\ map filter_arg (exports (trace st'))
         <> [af (spec_validate [seg 5 6; seg 1 2])])
  /\ sorted_by_start [seg 5 6; seg 1 2] = false
  /\ af (spec_validate [seg 5 6; seg 1 2])
     = "aselect='between(t,1.00,2.00)+between(t,5.00,6.00)',asetpts=N/SR/TB"
  /\ (exists st',
        script_condenseFile "/a/b/song.wav" options0 (start [[seg 1 3; seg 2 4]])
        = Some (tt, st')
        /\ map filter_arg (exports (trace st'))
           = ["aselect='between(t,1.00,3.00)+between(t,2.00,4.00)',asetpts=N/SR/TB"]
        /\ map filter_arg (exports (trace st'))
           <> [af (spec_validate [seg 1 3; seg 2 4])])
  /\ non_overlapping [seg 1 3; seg 2 4] = false
  /\ af (spec_validate [seg 1 3; seg 2 4])
     = "aselect='between(t,1.00,4.00)',asetpts=N/SR/TB".
Proof.
  repeat split; try (vm_compute; reflexivity);
    eexists; (split; [vm_compute; reflexivity|]);
    (split; [vm_compute; reflexivity|]); vm_compute; discriminate.
Qed.


(** Instances of the theorems above in the scripted world. *)

Ltac script_detects := do 5 eexists; repeat split.

Lemma filter_compiled_from_detected_witness :
  detects script_Run script_NewDetector script_Detect
    "/a/b/song.wav" options0 [[seg 5 6; seg 1 2]] [seg 5 6; seg 1 2] []
  /\ (1 <= List.length [seg 5 6; seg 1 2])%nat
  /\ exists st' : St Script,
      script_condenseFile "/a/b/song.wav" options0 (start [[seg 5 6; seg 1 2]])
      = Some (tt, st')
      /\ map filter_arg (exports (since (start [[seg 5 6; seg 1 2]]) st'))
         = [af [seg 5 6; seg 1 2]].
Proof.
  assert (H1 : detects script_Run script_NewDetector script_Detect
                 "/a/b/song.wav" options0 [[seg 5 6; seg 1 2]]
                 [seg 5 6; seg 1 2] []) by script_detects.
  assert (H2 : (1 <= List.length [seg 5 6; seg 1 2])%nat) by (simpl; lia).
  split; [exact H1|]. split; [exact H2|].
  destruct (filter_compiled_from_detected Script script_Run
              script_CombinedOutput script_NewDetector script_Detect
              "/a/b/song.wav" options0 (start [[seg 5 6; seg 1 2]])
              [seg 5 6; seg 1 2] [] H1 H2) as (st' & Hrun & Hf & _).
  exists st'. split; assumption.
Defined.

Lemma no_speech_ends_in_error_witness :
  detects script_Run script_NewDetector script_Detect
    "quiet.wav" options0 [[]] [] []
  /\ exists st' : St Script,
      script_condenseFile "quiet.wav" options0 (start [[]]) = Some (tt, st')
      /\ map Status (emitted (since (start [[]]) st'))
         = ["pending"; "loading"; "detecting"; "error"]
      /\ exports (since (start [[]]) st') = [].
Proof.
  assert (H1 : detects script_Run script_NewDetector script_Detect
                 "quiet.wav" options0 [[]] [] []) by script_detects.
  split; [exact H1|].
  destruct (no_speech_ends_in_error Script script_Run script_CombinedOutput
              script_NewDetector script_Detect "quiet.wav" options0
              (start [[]]) [] H1) as (st' & Hrun & _ & Hst & Hex).
  exists st'. repeat split; assumption.
Defined.

Lemma filter_selects_the_segments_witness :
  [seg 1 3; seg 2 4] <> []
  /\ forallb finite_segment [seg 1 3; seg 2 4] = true
  /\ exists e : ffmpeg.Expr,
      ffmpeg.read_chain (af [seg 1 3; seg 2 4])
      = Some [ffmpeg.Aselect e; ffmpeg.Asetpts "N/SR/TB"]
      /\ ffmpeg.terms e
         = map (fun s => (rounded (SpeechStartAt s), rounded (SpeechEndAt s)))
             [seg 1 3; seg 2 4].
Proof.
  assert (H1 : [seg 1 3; seg 2 4] <> []) by discriminate.
  assert (H2 : forallb finite_segment [seg 1 3; seg 2 4] = true) by reflexivity.
  split; [exact H1|]. split; [exact H2|].
  destruct (filter_selects_the_segments [seg 1 3; seg 2 4] H1 H2)
    as (e & He & Ht & _).
  exists e. split; assumption.
Defined.

Lemma filter_depends_on_segments_only_witness :
  detects script_Run script_NewDetector script_Detect
    "a.wav" options0 [[seg 1 2]] [seg 1 2] []
  /\ detects script_Run script_NewDetector script_Detect
       "dir/b.flac" options1 [[seg 1 2]; []] [seg 1 2] [[]]
  /\ [seg 1 2] <> []
  /\ Forall2 same_segment [seg 1 2] [seg 1 2]
  /\ exists st1' st2' : St Script,
      script_condenseFile "a.wav" options0 (start [[seg 1 2]]) = Some (tt, st1')
      /\ script_condenseFile "dir/b.flac" options1 (later [[seg 1 2]; []])
         = Some (tt, st2')
      /\ map filter_arg (exports (since (start [[seg 1 2]]) st1'))
         = map filter_arg (exports (since (later [[seg 1 2]; []]) st2')).
Proof.
  assert (H1 : detects script_Run script_NewDetector script_Detect
                 "a.wav" options0 [[seg 1 2]] [seg 1 2] []) by script_detects.
  assert (H2 : detects script_Run script_NewDetector script_Detect
                 "dir/b.flac" options1 [[seg 1 2]; []] [seg 1 2] [[]])
    by script_detects.
  assert (H3 : [seg 1 2] <> []) by discriminate.
  assert (H4 : Forall2 same_segment [seg 1 2] [seg 1 2])
    by (repeat constructor).
  split; [exact H1|]. split; [exact H2|]. split; [exact H3|]. split; [exact H4|].
  destruct (filter_depends_on_segments_only Script script_Run
              script_CombinedOutput script_NewDetector script_Detect
              "a.wav" "dir/b.flac" options0 options1
              (start [[seg 1 2]]) (later [[seg 1 2]; []])
              [seg 1 2] [seg 1 2] [] [[]] H1 H2 H3 H4)
    as (st1' & st2' & R1 & R2 & F1 & F2 & _).
  exists st1', st2'. repeat split; try assumption.
  now rewrite F1, F2.
Defined.



(** * The rest of the code *)

(** ** Decoding *)

Lemma read_samples_nth (n : nat) :
  forall (i : Z) (data : list ascii),
    (4 * n <= List.length data)%nat ->
    List.length (fst (read_samples n i data)) = n
    /\ forall j : nat,
        (j < n)%nat ->
        nth_error (fst (read_samples n i data)) j = Some (sample_at data j).
Proof.
  induction n as [|n IH]; intros i data Hlen.
  - split; [reflexivity|]. intros j Hj. lia.
  - destruct data as [|b0 [|b1 [|b2 [|b3 rest]]]]; simpl in Hlen; try lia.
    cbn [read_samples binary_Read].
    pose proof (read_samples_enough n (i + 1)%Z rest ltac:(lia)) as Herr.
    destruct (IH (i + 1)%Z rest ltac:(lia)) as [Hl Hn].
    destruct (read_samples n (i + 1) rest) as [vs e]. cbn [fst snd] in *.
    subst e. cbn [fst]. split; [cbn [List.length]; now rewrite Hl|].
    intros [|j] Hj; [reflexivity|].
    cbn [nth_error]. rewrite Hn by lia. unfold sample_at.
    replace (4 * S j)%nat with (S (S (S (S (4 * j))))) by lia.
    reflexivity.
Qed.

Lemma digits2_pos_bounds (m : positive) :
  (2 ^ (Zpos (digits2_pos m) - 1) <= Zpos m < 2 ^ Zpos (digits2_pos m))%Z.
Proof.
  induction m as [m IH|m IH|]; cbn [digits2_pos].
  - rewrite Pos2Z.inj_succ.
    replace (Z.succ (Zpos (digits2_pos m)) - 1)%Z
      with (Z.succ (Zpos (digits2_pos m) - 1))%Z by lia.
    rewrite !Z.pow_succ_r by lia. lia.
  - rewrite Pos2Z.inj_succ.
    replace (Z.succ (Zpos (digits2_pos m)) - 1)%Z
      with (Z.succ (Zpos (digits2_pos m) - 1))%Z by lia.
    rewrite !Z.pow_succ_r by lia. lia.
  - cbn. lia.
Qed.

Lemma digits2_pos_below (m : positive) (k : Z) :
  (0 <= k)%Z -> (Zpos m < 2 ^ k)%Z -> (Zpos (digits2_pos m) <= k)%Z.
Proof.
  intros Hk Hm. pose proof (digits2_pos_bounds m) as [Hlo _].
  destruct (Z_le_gt_dec (Zpos (digits2_pos m)) k) as [H|H]; [exact H|].
  exfalso.
  assert (2 ^ k <= 2 ^ (Zpos (digits2_pos m) - 1))%Z
    by (apply Z.pow_le_mono_r; lia).
  lia.
Qed.

Lemma digits2_pos_exact (m : positive) (k : Z) :
  (0 < k)%Z -> (2 ^ (k - 1) <= Zpos m < 2 ^ k)%Z -> Zpos (digits2_pos m) = k.
Proof.
  intros Hk [Hlo Hhi]. pose proof (digits2_pos_bounds m) as [Hlo' Hhi'].
  pose proof (digits2_pos_below m k ltac:(lia) Hhi).
  destruct (Z_lt_le_dec (Zpos (digits2_pos m)) k) as [H'|H']; [|lia].
  exfalso.
  assert (2 ^ Zpos (digits2_pos m) <= 2 ^ (k - 1))%Z
    by (apply Z.pow_le_mono_r; lia).
  lia.
Qed.

Lemma Float32frombits_valid (b : Z) :
  valid_binary 24 128 (Float32frombits b) = true.
Proof.
  unfold Float32frombits.
  set (ex := Z.land (Z.shiftr b 23) 255).
  set (mant := Z.land b 8388607).
  assert (Hex : (0 <= ex < 256)%Z).
  { unfold ex. change 255%Z with (Z.ones 8). rewrite Z.land_ones by lia.
    apply Z.mod_pos_bound. lia. }
  assert (Hmant : (0 <= mant < 2 ^ 23)%Z).
  { unfold mant. change 8388607%Z with (Z.ones 23). rewrite Z.land_ones by lia.
    apply Z.mod_pos_bound. lia. }
  destruct (ex =? 255)%Z eqn:E255.
  { destruct (mant =? 0)%Z; reflexivity. }
  apply Z.eqb_neq in E255.
  destruct (ex =? 0)%Z eqn:E0.
  - destruct mant as [|m|m] eqn:Em; try reflexivity.
    cbn [valid_binary]. unfold bounded, canonical_mantissa, fexp, emin.
    pose proof (digits2_pos_below m 23 ltac:(lia) ltac:(lia)).
    apply andb_true_iff. split; [apply Z.eqb_eq|apply Z.leb_le]; lia.
  - apply Z.eqb_neq in E0.
    destruct (mant + 8388608)%Z as [|m|m] eqn:Em; try reflexivity.
    cbn [valid_binary]. unfold bounded, canonical_mantissa, fexp, emin.
    assert (Hd : Zpos (digits2_pos m) = 24%Z).
    { apply digits2_pos_exact; [lia|].
      change (2 ^ (24 - 1))%Z with 8388608%Z.
      change (2 ^ 24)%Z with 16777216%Z.
      change (2 ^ 23)%Z with 8388608%Z in Hmant. lia. }
    rewrite Hd.
    apply andb_true_iff. split; [apply Z.eqb_eq|apply Z.leb_le]; lia.
Qed.

Example Float32frombits_examples :
  map Float32frombits [1065353216; 0; 2147483648; 3204448256; 2139095040; 2143289344; 1]%Z
  = [S754_finite false 8388608 (-23); S754_zero false; S754_zero true;
     S754_finite true 8388608 (-24); S754_infinity false; S754_nan;
     S754_finite false 1 (-149)].
Proof. reflexivity. Qed.

(** ** Strings and paths *)

Lemma substring_prefix (a b : string) :
  substring 0 (String.length a) (a ++ b) = a.
Proof.
  induction a as [|x a IH]; cbn; [destruct b; reflexivity|now rewrite IH].
Qed.

Lemma substring_all (b : string) : substring 0 (String.length b) b = b.
Proof. induction b as [|x b IH]; cbn; [reflexivity|now rewrite IH]. Qed.

Lemma substring_suffix (a b : string) :
  substring (String.length a) (String.length b) (a ++ b) = b.
Proof.
  induction a as [|x a IH]; cbn; [apply substring_all|exact IH].
Qed.

Lemma str_app (l1 l2 : list ascii) :
  filepath.str (l1 ++ l2) = filepath.str l1 ++ filepath.str l2.
Proof.
  unfold filepath.str.
  induction l1 as [|x l1 IH]; cbn; [reflexivity|now rewrite IH].
Qed.

Lemma chars_app (a b : string) :
  filepath.chars (a ++ b) = (filepath.chars a ++ filepath.chars b)%list.
Proof.
  unfold filepath.chars.
  induction a as [|x a IH]; cbn; [reflexivity|now rewrite IH].
Qed.

Lemma str_chars (s : string) : filepath.str (filepath.chars s) = s.
Proof. apply string_of_list_ascii_of_string. Qed.

Lemma chars_str (l : list ascii) : filepath.chars (filepath.str l) = l.
Proof. apply list_ascii_of_string_of_list_ascii. Qed.

Lemma TrimSuffix_app (x e : string) : strings.TrimSuffix (x ++ e) e = x.
Proof.
  unfold strings.TrimSuffix, strings.HasSuffix.
  rewrite slen_app.
  replace (String.length x + String.length e - String.length e)%nat
    with (String.length x) by lia.
  rewrite substring_suffix, String.eqb_refl, substring_prefix.
  replace (String.length e <=? String.length x + String.length e)%nat
    with true by (symmetry; apply Nat.leb_le; lia).
  reflexivity.
Qed.

(** *** The last element of a path *)

Lemma last_elem_no_sep (r : list ascii) :
  existsb filepath.IsPathSeparator (filepath.last_elem r) = false.
Proof.
  induction r as [|c r IH]; [reflexivity|].
  cbn [filepath.last_elem].
  destruct (filepath.IsPathSeparator c) eqn:E; [reflexivity|].
  cbn [existsb]. now rewrite E, IH.
Qed.

Lemma last_elem_app (a rest : list ascii) :
  existsb filepath.IsPathSeparator a = false ->
  filepath.last_elem (a ++ rest)%list = (a ++ filepath.last_elem rest)%list.
Proof.
  induction a as [|c a IH]; intros H; [reflexivity|].
  cbn [existsb] in H. apply orb_false_iff in H. destruct H as [Hc Ha].
  cbn [List.app filepath.last_elem]. rewrite Hc. now rewrite IH.
Qed.

Lemma existsb_rev {A} (f : A -> bool) (l : list A) :
  existsb f (rev l) = existsb f l.
Proof.
  induction l as [|x l IH]; [reflexivity|].
  cbn [rev existsb]. rewrite existsb_app, IH. cbn [existsb].
  rewrite orb_false_r. apply orb_comm.
Qed.

(** The name shown for a path is never empty, and it has no separator in
    it unless the path is made of separators only, when it is the root:
    [GetFileName] returns a single path element. *)
Theorem GetFileName_is_one_element (path : string) :
  GetFileName path <> ""
  /\ (has_sep (GetFileName path) = true -> GetFileName path = "/").
Proof.
  unfold GetFileName, filepath.Base.
  destruct path as [|c path']; [split; [discriminate|discriminate]|].
  set (r := filepath.strip_seps (rev (filepath.chars (String c path')))).
  pose proof (last_elem_no_sep r) as Hns.
  destruct (filepath.last_elem r) as [|x e] eqn:E; [split; [discriminate|reflexivity]|].
  split.
  - intros H. apply (f_equal filepath.chars) in H. rewrite chars_str in H.
    cbn in H. destruct (rev e); discriminate.
  - unfold has_sep. rewrite chars_str, existsb_rev, Hns. discriminate.
Qed.

Lemma Base_after_sep (p name : string) :
  has_sep name = false ->
  name <> "" ->
  (p = "" \/ exists q, p = q ++ "/") ->
  filepath.Base (p ++ name) = name.
Proof.
  intros Hns Hne Hp. unfold filepath.Base.
  destruct (p ++ name) as [|c0 s0] eqn:Epn.
  { destruct p; [cbn in Epn; congruence|discriminate]. }
  rewrite <- Epn. clear c0 s0 Epn.
  rewrite chars_app, rev_app_distr.
  assert (Hr : existsb filepath.IsPathSeparator (rev (filepath.chars name)) = false)
    by (rewrite existsb_rev; exact Hns).
  assert (Hrne : rev (filepath.chars name) <> []).
  { intros H. apply (f_equal (@rev ascii)) in H. rewrite rev_involutive in H.
    cbn in H. apply (f_equal filepath.str) in H. rewrite str_chars in H.
    now apply Hne. }
  destruct (rev (filepath.chars name)) as [|x a] eqn:Ea; [congruence|].
  cbn [existsb] in Hr. apply orb_false_iff in Hr. destruct Hr as [Hx Ha].
  cbn [List.app filepath.strip_seps]. rewrite Hx.
  cbn [filepath.last_elem]. rewrite Hx.
  rewrite last_elem_app by exact Ha.
  assert (Hl : filepath.last_elem (rev (filepath.chars p)) = []).
  { destruct Hp as [->|[q ->]]; [reflexivity|].
    rewrite chars_app, rev_app_distr. reflexivity. }
  rewrite Hl, app_nil_r.
  rewrite <- Ea, rev_involutive. apply str_chars.
Qed.

(** The name shown for [dir/name] is [name], when [name] is not empty and
    has no separator. *)
Theorem GetFileName_of_joined (dir name : string) :
  has_sep name = false ->
  name <> "" ->
  GetFileName (dir ++ "/" ++ name) = name /\ GetFileName name = name.
Proof.
  intros Hns Hne. split.
  - rewrite <- sapp_assoc. apply Base_after_sep; try assumption.
    right. eexists. reflexivity.
  - apply (Base_after_sep "" name); try assumption. left. reflexivity.
Qed.

(** *** The extension *)

Lemma ext_scan_spec (r : list ascii) :
  forall seen : list ascii,
    filepath.ext_scan r seen = []
    \/ exists a rest,
        r = (a ++ "."%char :: rest)%list
        /\ existsb filepath.IsPathSeparator a = false
        /\ filepath.ext_scan r seen = ("."%char :: rev a ++ seen)%list.
Proof.
  induction r as [|c r IH]; intros seen; [left; reflexivity|].
  cbn [filepath.ext_scan].
  destruct (filepath.IsPathSeparator c) eqn:Ec; [left; reflexivity|].
  destruct (Ascii.eqb c ".") eqn:Ed.
  - apply Ascii.eqb_eq in Ed. subst c. right. exists [], r. repeat split.
  - destruct (IH (c :: seen)) as [H|(a & rest & -> & Ha & H)]; [left; exact H|].
    right. exists (c :: a), rest. split; [reflexivity|]. split.
    + cbn [existsb]. now rewrite Ec, Ha.
    + rewrite H. cbn [rev]. now rewrite <- app_assoc.
Qed.

(** The extension is the end of the base name: the base name is the stem
    the output name starts with, followed by the extension, for every
    path; nothing but the extension is cut off. *)
Theorem stem_and_extension_make_the_base_name (path : string) :
  strings.TrimSuffix (filepath.Base path) (filepath.Ext path)
  ++ filepath.Ext path
  = filepath.Base path.
Proof.
  assert (Hx : exists x, filepath.Base path = x ++ filepath.Ext path).
  { unfold filepath.Ext.
    destruct (ext_scan_spec (rev (filepath.chars path)) [])
      as [H|(a & rest & Hr & Ha & H)]; rewrite H.
    - exists (filepath.Base path). cbn. now rewrite sapp_nil_r.
    - rewrite app_nil_r. unfold filepath.Base.
      destruct path as [|c path'].
      { cbn in Hr. destruct a; discriminate. }
      rewrite Hr.
      assert (Hd : filepath.IsPathSeparator "."%char = false) by reflexivity.
      assert (Hs : filepath.strip_seps (a ++ "."%char :: rest)
                   = (a ++ "."%char :: rest)%list).
      { destruct a as [|y a']; [reflexivity|].
        cbn [existsb] in Ha. apply orb_false_iff in Ha.
        cbn [List.app filepath.strip_seps]. now rewrite (proj1 Ha). }
      rewrite Hs, last_elem_app by exact Ha.
      cbn [filepath.last_elem]. rewrite Hd.
      destruct (a ++ "."%char :: filepath.last_elem rest)%list eqn:E.
      { destruct a; discriminate. }
      rewrite <- E. rewrite rev_app_distr. cbn [rev].
      rewrite <- app_assoc, str_app. cbn [List.app].
      eexists. reflexivity. }
  destruct Hx as [x Hx]. rewrite Hx at 1. rewrite TrimSuffix_app. now rewrite Hx.
Qed.

(** *** Cleaning a path with one more element *)

Lemma elements_nonempty (s : string) : filepath.elements s <> [].
Proof.
  induction s as [|c s IH]; cbn [filepath.elements]; [discriminate|].
  destruct (filepath.IsPathSeparator c); [discriminate|].
  destruct (filepath.elements s); [congruence|discriminate].
Qed.

Lemma elements_app_sep (s t : string) :
  filepath.elements (s ++ "/" ++ t)
  = (filepath.elements s ++ filepath.elements t)%list.
Proof.
  induction s as [|c s IH]; [reflexivity|].
  change (String c s ++ "/" ++ t) with (String c (s ++ "/" ++ t)).
  cbn [filepath.elements].
  destruct (filepath.IsPathSeparator c); [cbn [List.app]; now rewrite IH|].
  rewrite IH. pose proof (elements_nonempty s).
  destruct (filepath.elements s); [congruence|reflexivity].
Qed.

Lemma elements_plain (name : string) :
  has_sep name = false -> filepath.elements name = [name].
Proof.
  unfold has_sep, filepath.chars.
  induction name as [|c name IH]; intros H; [reflexivity|].
  cbn [list_ascii_of_string existsb] in H.
  apply orb_false_iff in H. destruct H as [Hc Hn].
  cbn [filepath.elements]. rewrite Hc, (IH Hn). reflexivity.
Qed.

Lemma elements_no_sep (s : string) :
  Forall (fun e => has_sep e = false) (filepath.elements s).
Proof.
  induction s as [|c s IH]; cbn [filepath.elements]; [repeat constructor|].
  destruct (filepath.IsPathSeparator c) eqn:Ec; [constructor; [reflexivity|exact IH]|].
  pose proof (elements_nonempty s).
  destruct (filepath.elements s) as [|e es]; [congruence|].
  inversion IH; subst. constructor; [|assumption].
  unfold has_sep, filepath.chars in *. cbn [list_ascii_of_string existsb].
  now rewrite Ec.
Qed.

Lemma clean_step_kept (rooted : bool) (out : list string) (e : string) :
  has_sep e = false ->
  Forall (fun x => kept x) out ->
  Forall (fun x => kept x) (filepath.clean_step rooted out e).
Proof.
  intros He Hout. unfold filepath.clean_step.
  destruct (String.eqb e "") eqn:E0; [exact Hout|].
  destruct (String.eqb e ".") eqn:E1; [exact Hout|].
  apply String.eqb_neq in E0, E1. cbn [orb].
  assert (Hk : kept e) by (repeat split; assumption).
  destruct (String.eqb e "..").
  - destruct out as [|top rest].
    + destruct rooted; repeat constructor; assumption.
    + destruct (String.eqb top "..").
      * constructor; assumption.
      * now inversion Hout.
  - constructor; assumption.
Qed.

Lemma fold_clean_kept (rooted : bool) (es : list string) :
  forall out,
    Forall (fun e => has_sep e = false) es ->
    Forall (fun x => kept x) out ->
    Forall (fun x => kept x) (fold_left (filepath.clean_step rooted) es out).
Proof.
  induction es as [|e es IH]; intros out Hes Hout; [exact Hout|].
  inversion Hes; subst. cbn [fold_left]. apply IH; [assumption|].
  now apply clean_step_kept.
Qed.

Lemma concat_snoc (l : list string) (x : string) :
  l <> [] ->
  String.concat "/" (l ++ [x]) = String.concat "/" l ++ "/" ++ x.
Proof.
  induction l as [|y l IH]; [congruence|]. intros _.
  destruct l as [|z l'].
  - reflexivity.
  - change (String.concat "/" ((y :: z :: l') ++ [x]))
      with (y ++ "/" ++ String.concat "/" ((z :: l') ++ [x])).
    rewrite IH by discriminate.
    change (String.concat "/" (y :: z :: l'))
      with (y ++ "/" ++ String.concat "/" (z :: l')).
    now rewrite !sapp_assoc.
Qed.

Lemma concat_kept (x : string) (xs : list string) :
  kept x ->
  exists (c : ascii) (tl : string),
    String.concat "/" (x :: xs) = String c tl
    /\ filepath.IsPathSeparator c = false
    /\ String c tl <> ".".
Proof.
  intros (H0 & H1 & Hs). destruct x as [|c x']; [congruence|].
  unfold has_sep, filepath.chars in Hs. cbn [list_ascii_of_string existsb] in Hs.
  apply orb_false_iff in Hs. destruct Hs as [Hc _].
  destruct xs as [|y ys].
  - exists c, x'. repeat split; assumption.
  - exists c, (x' ++ "/" ++ String.concat "/" (y :: ys)).
    split; [reflexivity|]. split; [exact Hc|].
    intros H. injection H as _ H. destruct x'; discriminate.
Qed.

Lemma Clean_join_plain (dir name : string) :
  dir <> "" ->
  plain_name name = true ->
  filepath.Clean (dir ++ "/" ++ name)
  = if String.eqb (filepath.Clean dir) "/" then "/" ++ name
    else if String.eqb (filepath.Clean dir) "." then name
         else filepath.Clean dir ++ "/" ++ name.
Proof.
  intros Hdir Hplain. unfold plain_name in Hplain.
  repeat (apply andb_true_iff in Hplain; destruct Hplain as [Hplain ?]).
  repeat match goal with
         | H : negb _ = true |- _ => apply negb_true_iff in H
         end.
  rename Hplain into Hns.
  destruct dir as [|c d]; [congruence|].
  change (String c d ++ "/" ++ name) with (String c (d ++ "/" ++ name)).
  unfold filepath.Clean.
  change (String c (d ++ "/" ++ name)) with (String c d ++ "/" ++ name).
  rewrite elements_app_sep, (elements_plain name Hns), fold_left_app.
  cbn [fold_left].
  set (rooted := filepath.IsPathSeparator c).
  set (out := fold_left (filepath.clean_step rooted)
                (filepath.elements (String c d)) []).
  assert (Hout : Forall (fun x => kept x) out)
    by (apply fold_clean_kept; [apply elements_no_sep|constructor]).
  assert (Hstep : filepath.clean_step rooted out name = name :: out).
  { unfold filepath.clean_step.
    repeat match goal with H : String.eqb name _ = false |- _ => rewrite H end.
    reflexivity. }
  rewrite Hstep. cbn [rev].
  apply Forall_rev in Hout.
  destruct (rev out) as [|x xs] eqn:Er.
  - cbn [List.app String.concat].
    destruct rooted; cbn.
    + reflexivity.
    + apply String.eqb_neq in H1. destruct name; [congruence|reflexivity].
  - rewrite concat_snoc by discriminate.
    inversion Hout as [|? ? Hx _]; subst.
    destruct (concat_kept x xs Hx) as (a & tl & HB & Ha & Hdot).
    rewrite HB.
    destruct rooted.
    + cbn. reflexivity.
    + unfold filepath.IsPathSeparator in Ha.
      assert (Hroot : String.eqb (String a tl) "/" = false).
      { cbn [String.eqb]. now rewrite Ha. }
      apply String.eqb_neq in Hdot.
      assert (Hne : String.eqb (String a tl) "" = false) by reflexivity.
      rewrite Hne, Hroot, Hdot. reflexivity.
Qed.

(** When the name made of stem, suffix and format is a plain file name
    (no separator, not a dot or two), the output lands in the cleaned
    output directory under exactly that name: its base name is the name,
    and the path is the directory, a separator and the name, without the
    directory when that is the current one. *)
Theorem output_lands_in_the_directory
  (inputPath outputDir outputSuffix outputFormat : string) :
  let dir :=
    if String.eqb outputDir "" then filepath.Dir inputPath else outputDir in
  let name :=
    strings.TrimSuffix (filepath.Base inputPath) (filepath.Ext inputPath)
    ++ outputSuffix ++ "." ++ outputFormat in
  plain_name name = true ->
  outName inputPath outputDir outputSuffix outputFormat
  = (if String.eqb (filepath.Clean dir) "/" then "/" ++ name
     else if String.eqb (filepath.Clean dir) "." then name
          else filepath.Clean dir ++ "/" ++ name)
  /\ filepath.Base (outName inputPath outputDir outputSuffix outputFormat)
     = name.
Proof.
  intros dir name Hplain.
  assert (Hdir : dir <> "").
  { unfold dir. destruct (String.eqb outputDir "") eqn:E.
    - apply Clean_nonempty.
    - now apply String.eqb_neq in E. }
  assert (Hout : outName inputPath outputDir outputSuffix outputFormat
                 = filepath.Clean (dir ++ "/" ++ name)).
  { unfold outName. fold dir. fold name. now apply Join_pair. }
  rewrite Hout, (Clean_join_plain dir name Hdir Hplain).
  split; [reflexivity|].
  pose proof Hplain as Hp. unfold plain_name in Hp.
  repeat (apply andb_true_iff in Hp; destruct Hp as [Hp ?]).
  apply negb_true_iff in Hp.
  assert (Hne : name <> "").
  { intros E. rewrite E in *. discriminate. }
  destruct (String.eqb (filepath.Clean dir) "/").
  - apply (Base_after_sep "/" name Hp Hne). right. exists "". reflexivity.
  - destruct (String.eqb (filepath.Clean dir) ".").
    + apply (Base_after_sep "" name Hp Hne). left. reflexivity.
    + rewrite <- sapp_assoc. apply (Base_after_sep _ name Hp Hne).
      right. eexists. reflexivity.
Qed.

(** ** The file list of the front end *)

Lemma addDropped_well_formed (p : string) (prev : list frontend.FileItem) :
  frontend.well_formed prev ->
  frontend.well_formed (frontend.addDropped p prev)
  /\ In p (map frontend.path (frontend.addDropped p prev))
  /\ exists added, frontend.addDropped p prev = (prev ++ added)%list.
Proof.
  intros [Hnd Hnm]. unfold frontend.addDropped.
  destruct (existsb _ prev) eqn:E.
  - split; [split; assumption|]. split; [|exists []; now rewrite app_nil_r].
    apply existsb_exists in E. destruct E as (f & Hf & Heq).
    apply String.eqb_eq in Heq. subst p. now apply in_map.
  - split; [|split; [|eexists; reflexivity]].
    + split.
      * rewrite map_app. cbn [map frontend.path].
        apply NoDup_app; [exact Hnd|repeat constructor; intros []|].
        intros x Hx [Hxp|[]]. subst x. apply in_map_iff in Hx.
        destruct Hx as (f & Hp & Hf).
        assert (existsb (fun f => String.eqb (frontend.path f) p) prev = true).
        { apply existsb_exists. exists f. split; [exact Hf|].
          now apply String.eqb_eq. }
        congruence.
      * apply Forall_app. split; [exact Hnm|repeat constructor].
    + rewrite map_app. apply in_or_app. right. left. reflexivity.
Qed.

(** Dropping files, in any number and with any repetitions, keeps the
    list well formed: no path twice, every name the base name of its
    path.  The files already listed stay where they are, and every
    dropped path is listed afterwards. *)
Theorem drop_keeps_the_list_well_formed (dropped : list string) :
  forall prev : list frontend.FileItem,
    frontend.well_formed prev ->
    frontend.well_formed (frontend.handleDrop dropped prev)
    /\ (forall p, In p dropped ->
                  In p (map frontend.path (frontend.handleDrop dropped prev)))
    /\ exists added, frontend.handleDrop dropped prev = (prev ++ added)%list.
Proof.
  induction dropped as [|p dropped IH]; intros prev Hwf.
  - split; [exact Hwf|]. split; [intros p []|exists []; now rewrite app_nil_r].
  - cbn [frontend.handleDrop fold_left].
    destruct (addDropped_well_formed p prev Hwf) as (Hwf1 & Hin1 & add1 & Hadd1).
    destruct (IH _ Hwf1) as (Hwf2 & Hin2 & add2 & Hadd2).
    fold (frontend.handleDrop dropped (frontend.addDropped p prev)) in *.
    split; [exact Hwf2|]. split.
    + intros q [<-|Hq]; [|now apply Hin2].
      rewrite Hadd2, map_app. apply in_or_app. now left.
    + exists (add1 ++ add2)%list. now rewrite Hadd2, Hadd1, <- app_assoc.
Qed.

Lemma handleDrop_listed (dropped : list string) :
  forall prev : list frontend.FileItem,
    (forall p, In p dropped -> In p (map frontend.path prev)) ->
    frontend.handleDrop dropped prev = prev.
Proof.
  induction dropped as [|p dropped IH]; intros prev H; [reflexivity|].
  cbn [frontend.handleDrop fold_left].
  assert (E : frontend.addDropped p prev = prev).
  { unfold frontend.addDropped.
    assert (Hx : existsb (fun f => String.eqb (frontend.path f) p) prev = true).
    { apply existsb_exists. specialize (H p (or_introl eq_refl)).
      apply in_map_iff in H. destruct H as (f & Hp & Hf).
      exists f. split; [exact Hf|]. now apply String.eqb_eq. }
    now rewrite Hx. }
  rewrite E. apply IH. intros q Hq. apply H. now right.
Qed.

Lemma handleDrop_grows (dropped : list string) :
  forall (l : list frontend.FileItem) (p : string),
    In p (map frontend.path l) ->
    In p (map frontend.path (frontend.handleDrop dropped l)).
Proof.
  induction dropped as [|r dropped IH]; intros l p Hin; [exact Hin|].
  cbn [frontend.handleDrop fold_left]. apply IH.
  unfold frontend.addDropped. destruct (existsb _ l); [exact Hin|].
  rewrite map_app. apply in_or_app. now left.
Qed.

Lemma handleDrop_lists (dropped : list string) :
  forall (prev : list frontend.FileItem) (p : string),
    In p dropped ->
    In p (map frontend.path (frontend.handleDrop dropped prev)).
Proof.
  induction dropped as [|q dropped IH]; intros prev p Hp; [destruct Hp|].
  cbn [frontend.handleDrop fold_left].
  destruct Hp as [<-|Hp]; [|now apply IH].
  apply (handleDrop_grows dropped). unfold frontend.addDropped.
  destruct (existsb _ prev) eqn:E.
  - apply existsb_exists in E. destruct E as (f & Hf & Heq).
    apply String.eqb_eq in Heq. subst q. now apply in_map.
  - rewrite map_app. apply in_or_app. right. left. reflexivity.
Qed.

(** Dropping files that are all listed already changes nothing; so
    dropping the same files a second time does nothing more than the
    first, whatever the list was. *)
Theorem dropping_again_changes_nothing (dropped : list string)
  (prev : list frontend.FileItem) :
  frontend.handleDrop dropped (frontend.handleDrop dropped prev)
  = frontend.handleDrop dropped prev.
Proof.
  apply handleDrop_listed. intros p Hp. now apply handleDrop_lists.
Qed.

(** Browsing adds the selected paths that are not listed yet; the list
    stays well formed when the selection has no path twice. *)
Theorem browse_keeps_the_list_well_formed (selectedPaths : list string)
  (files : list frontend.FileItem) :
  frontend.well_formed files ->
  NoDup selectedPaths ->
  frontend.well_formed (frontend.handleBrowseFiles selectedPaths files)
  /\ forall p, In p selectedPaths ->
               In p (map frontend.path
                       (frontend.handleBrowseFiles selectedPaths files)).
Proof.
  intros [Hnd Hnm] Hsel. unfold frontend.handleBrowseFiles.
  set (fresh := filter _ selectedPaths).
  assert (Hpaths : map frontend.path
                     (map (fun p => {| frontend.path := p;
                                       frontend.name := GetFileName p;
                                       frontend.status := "pending";
                                       frontend.error := None |}) fresh)
                   = fresh).
  { rewrite map_map. cbn [frontend.path]. apply map_id. }
  split; [split|].
  - rewrite map_app, Hpaths. apply NoDup_app; [exact Hnd| |].
    + unfold fresh. now apply NoDup_filter.
    + intros x Hx Hf. unfold fresh in Hf. apply filter_In in Hf.
      destruct Hf as [_ Hf]. apply negb_true_iff in Hf.
      apply in_map_iff in Hx. destruct Hx as (f & Hp & Hin).
      assert (existsb (fun f => String.eqb (frontend.path f) x) files = true).
      { apply existsb_exists. exists f. split; [exact Hin|].
        now apply String.eqb_eq. }
      congruence.
  - apply Forall_app. split; [exact Hnm|].
    apply Forall_forall. intros f Hf. apply in_map_iff in Hf.
    destruct Hf as (p & <- & _). reflexivity.
  - intros p Hp. rewrite map_app, Hpaths. apply in_or_app.
    destruct (existsb (fun f => String.eqb (frontend.path f) p) files) eqn:E.
    + left. apply existsb_exists in E. destruct E as (f & Hf & Heq).
      apply String.eqb_eq in Heq. subst p. now apply in_map.
    + right. unfold fresh. apply filter_In. split; [exact Hp|].
      now rewrite E.
Qed.

Lemma deliver_map (events : list CondenseProgress) :
  forall prev : list frontend.FileItem,
    frontend.deliver events prev = map (frontend.item_after events) prev.
Proof.
  induction events as [|d events IH]; intros prev.
  - cbn. symmetry. apply map_id.
  - cbn [frontend.deliver fold_left]. fold (frontend.deliver events).
    rewrite IH. unfold frontend.onProgress. rewrite map_map. reflexivity.
Qed.

Lemma item_after_cons (d : CondenseProgress) (events : list CondenseProgress)
  (f : frontend.FileItem) :
  frontend.item_after (d :: events) f
  = frontend.item_after events
      (if String.eqb (frontend.path f) (FilePath d)
       then {| frontend.path := frontend.path f;
               frontend.name := frontend.name f;
               frontend.status := Status d;
               frontend.error := frontend.data_error d |}
       else f).
Proof. reflexivity. Qed.

Lemma item_after_same (events : list CondenseProgress) :
  forall f : frontend.FileItem,
    frontend.path (frontend.item_after events f) = frontend.path f
    /\ frontend.name (frontend.item_after events f) = frontend.name f.
Proof.
  induction events as [|d events IH]; intros f; [split; reflexivity|].
  rewrite item_after_cons.
  destruct (String.eqb (frontend.path f) (FilePath d)); [|apply IH].
  match goal with |- context [frontend.item_after events ?g] =>
    destruct (IH g) as [G1 G2] end.
  split; assumption.
Qed.

Lemma item_after_other (events : list CondenseProgress) (f : frontend.FileItem) :
  Forall (fun d => FilePath d <> frontend.path f) events ->
  frontend.item_after events f = f.
Proof.
  induction 1 as [|d events Hd _ IH]; [reflexivity|].
  rewrite item_after_cons.
  assert (E : String.eqb (frontend.path f) (FilePath d) = false)
    by (apply String.eqb_neq; congruence).
  now rewrite E.
Qed.

Lemma item_after_app (a b : list CondenseProgress) (f : frontend.FileItem) :
  frontend.item_after (a ++ b) f
  = frontend.item_after b (frontend.item_after a f).
Proof. unfold frontend.item_after. apply fold_left_app. Qed.

(** The listener never adds, removes, reorders or renames a file: after
    any events the paths and the names are those before, so a well-formed
    list stays so, and a file none of the events is about is left as it
    was. *)
Theorem progress_keeps_the_list (events : list CondenseProgress)
  (prev : list frontend.FileItem) :
  map frontend.path (frontend.deliver events prev) = map frontend.path prev
  /\ map frontend.name (frontend.deliver events prev) = map frontend.name prev
  /\ (frontend.well_formed prev ->
      frontend.well_formed (frontend.deliver events prev))
  /\ (forall f, In f prev ->
                Forall (fun d => FilePath d <> frontend.path f) events ->
                In f (frontend.deliver events prev)).
Proof.
  rewrite deliver_map.
  assert (Hp : map frontend.path (map (frontend.item_after events) prev)
               = map frontend.path prev).
  { rewrite map_map. apply map_ext. intros f. apply item_after_same. }
  assert (Hn : map frontend.name (map (frontend.item_after events) prev)
               = map frontend.name prev).
  { rewrite map_map. apply map_ext. intros f. apply item_after_same. }
  split; [exact Hp|]. split; [exact Hn|]. split.
  - intros [Hnd Hnm]. split; [now rewrite Hp|].
    apply Forall_forall. intros g Hg. apply in_map_iff in Hg.
    destruct Hg as (f & <- & Hf).
    destruct (item_after_same events f) as [-> ->].
    rewrite Forall_forall in Hnm. now apply Hnm.
  - intros f Hf Hev. apply in_map_iff. exists f. split; [|exact Hf].
    now apply item_after_other.
Qed.

(** ** The progress bar *)

Lemma Repeat_some (s : string) (count : Z) :
  (0 <= count)%Z ->
  cli.Repeat s count = Some (String.concat "" (repeat s (Z.to_nat count))).
Proof.
  intros H. unfold cli.Repeat.
  destruct (count <? 0)%Z eqn:E; [apply Z.ltb_lt in E; lia|reflexivity].
Qed.

Lemma filled_at_most_width (other : spec_float -> Z) (p : spec_float) :
  (cli.filled other p <= 40)%Z.
Proof.
  unfold cli.filled, cli.width.
  destruct (_ >? 40)%Z eqn:E; [lia|].
  rewrite Z.gtb_ltb in E. apply Z.ltb_ge in E. exact E.
Qed.

Lemma printProgress_panics_iff (other : spec_float -> Z) (p : spec_float) :
  cli.printProgress other p = None <-> (cli.filled other p < 0)%Z.
Proof.
  pose proof (filled_at_most_width other p) as Hle.
  unfold cli.printProgress.
  set (n := cli.filled other p) in *.
  destruct (Z_lt_ge_dec n 0) as [Hneg|Hpos].
  - assert (E : cli.Repeat cli.block n = None).
    { unfold cli.Repeat. apply Z.ltb_lt in Hneg. now rewrite Hneg. }
    rewrite E. split; [intros _; lia|reflexivity].
  - rewrite (Repeat_some cli.block n) by lia.
    rewrite (Repeat_some " " (cli.width - n)) by (unfold cli.width; lia).
    split; [discriminate|lia].
Qed.

(** [printProgress] panics exactly when the number of filled cells it
    computes is negative; otherwise the bar it prints has forty cells,
    the filled ones first, at most forty of them, and the line ends with
    a newline exactly when the progress is at least 1. *)
Theorem progress_bar_has_forty_cells (other : spec_float -> Z)
  (p : spec_float) :
  (cli.printProgress other p = None <-> (cli.filled other p < 0)%Z)
  /\ (forall out : string,
        cli.printProgress other p = Some out ->
        exists (k : nat) (pct : string),
          Z.of_nat k = cli.filled other p
          /\ (k <= 40)%nat
          /\ out = String "013"%char "voice detection ["
                   ++ (String.concat "" (repeat cli.block k)
                       ++ String.concat "" (repeat " " (40 - k)))
                   ++ "] " ++ pct ++ "%"
                   ++ (if SFleb (f64 1 0) p then String "010"%char "" else "")).
Proof.
  pose proof (filled_at_most_width other p) as Hle.
  unfold cli.printProgress.
  set (n := cli.filled other p) in *.
  destruct (Z_lt_ge_dec n 0) as [Hneg|Hpos].
  - assert (E : cli.Repeat cli.block n = None).
    { unfold cli.Repeat. apply Z.ltb_lt in Hneg. now rewrite Hneg. }
    rewrite E. split; [split; [intros _; lia|reflexivity]|discriminate].
  - rewrite (Repeat_some cli.block n) by lia.
    rewrite (Repeat_some " " (cli.width - n)) by (unfold cli.width; lia).
    split; [split; [discriminate|lia]|].
    replace (Z.to_nat (cli.width - n)) with (40 - Z.to_nat n)%nat
      by (unfold cli.width; lia).
    cbv beta iota zeta.
    intros out Hout.
    exists (Z.to_nat n), (cli.Sprintf_3d (cli.int other (cli.mul p (f64 100 0)))).
    split; [lia|]. split; [lia|]. congruence.
Qed.

Lemma binary_round_aux_sign (prec emax : Z) (s : bool) (m e : Z) (l : location) :
  match binary_round_aux prec emax s m e l with
  | S754_zero s' | S754_finite s' _ _ | S754_infinity s' => s' = s
  | S754_nan => True
  end.
Proof.
  unfold binary_round_aux.
  destruct (shr_fexp prec emax m e l) as [mrs' e'].
  destruct (shr_fexp prec emax _ e' loc_Exact) as [mrs'' e''].
  destruct (shr_m mrs''); [reflexivity| |exact I].
  destruct (e'' <=? emax - prec)%Z; reflexivity.
Qed.

Lemma trunc_nonneg (m : positive) (e : Z) : (0 <= cli.trunc false m e)%Z.
Proof.
  unfold cli.trunc. destruct e as [|q|q].
  - lia.
  - pose proof (Z.pow_pos_nonneg 2 (Zpos q)). nia.
  - apply Z.div_pos; [lia|]. apply Z.pow_pos_nonneg; lia.
Qed.

(** For a progress that is zero or positive and finite, and such that
    forty times it still fits an integer, [printProgress] does not panic:
    it prints a line, whatever the machine makes of the values that do not
    fit. *)
Theorem progress_bar_of_a_fraction (other : spec_float -> Z) (p : spec_float) :
  not_negative p = true ->
  cli.representable (cli.mul (f64 cli.width 0) p) = true ->
  (0 <= cli.filled other p <= 40)%Z
  /\ exists out : string, cli.printProgress other p = Some out.
Proof.
  intros Hp Hrep.
  assert (H0 : (0 <= cli.filled other p)%Z).
  { unfold cli.filled.
    destruct (_ >? cli.width)%Z; [unfold cli.width; lia|].
    assert (Hs : match cli.mul (f64 cli.width 0) p with
                 | S754_zero _ => True
                 | S754_finite s _ _ => s = false
                 | _ => True
                 end).
    { change (f64 cli.width 0) with (S754_finite false 5629499534213120 (-47)).
      unfold cli.mul.
      destruct p as [s|s| |s m e]; try exact I; try discriminate.
      destruct s; [discriminate|].
      cbn [SFmul xorb].
      pose proof (binary_round_aux_sign 53 1024 false
                    (Zpos (5629499534213120 * m)) (-47 + e) loc_Exact) as H.
      destruct (binary_round_aux 53 1024 false _ _ loc_Exact); auto. }
    unfold cli.int.
    destruct (cli.mul (f64 cli.width 0) p) as [s|s| |s m e];
      try discriminate Hrep; [lia|].
    rewrite Hrep. subst s. apply trunc_nonneg. }
  split; [split; [exact H0|apply filled_at_most_width]|].
  destruct (cli.printProgress other p) as [out|] eqn:E; [eauto|].
  apply printProgress_panics_iff in E. lia.
Qed.

Section MoreFacts.

Variable World : Type.
Variable exec_Run :
  string -> list string -> World -> error * string * string * World.
Variable exec_CombinedOutput :
  string -> list string -> World -> string * error * World.
Variable speech_NewDetector : DetectorConfig World -> World -> error * World.
Variable speech_Detect :
  Logger -> DetectorConfig World -> list spec_float -> World ->
  list spec_float * (list Segment * error) * World.

Local Abbreviation condenseFile' :=
  (condenseFile World exec_Run exec_CombinedOutput speech_NewDetector speech_Detect).
Local Abbreviation CondenseFiles' :=
  (CondenseFiles World exec_Run exec_CombinedOutput speech_NewDetector speech_Detect).
Local Abbreviation CondenseWithOptions' :=
  (CondenseWithOptions World exec_Run exec_CombinedOutput speech_NewDetector speech_Detect).
Local Abbreviation decodeToFloat32' := (decodeToFloat32 World exec_Run).

(** [decodeToFloat32] returns an error exactly when the decoder run
    does, and then no samples; its own read loop never fails: the run is
    the only thing it does to the world, and the default logger is left
    alone. *)
Theorem decode_fails_only_with_ffmpeg (inFile : string) (rate : Z)
  (st : St World) (xerr : error) (stdout stderr : string) (w : World) :
  exec_Run "ffmpeg" (decode_args inFile rate) (world st)
  = (xerr, stdout, stderr, w) ->
  exists (samples : list spec_float) (err : error),
    decodeToFloat32' inFile rate st
    = Some ((samples, err),
            extend st w [ARun "ffmpeg" (decode_args inFile rate)])
    /\ (xerr = None <-> err = None)
    /\ (forall e, xerr = Some e ->
                  samples = []
                  /\ err = Some ("ffmpeg decode error: " ++ e
                                 ++ ", stderr: " ++ stderr)).
Proof.
  intros Hrun. unfold decodeToFloat32. cbv beta zeta. rewrite Hrun.
  unfold bind, act, ret. cbn [world defaultLogger trace].
  destruct xerr as [e|].
  - do 2 eexists. split; [reflexivity|]. split.
    + split; discriminate.
    + intros e' He. injection He as <-. split; reflexivity.
  - rewrite read_samples_of. do 2 eexists. split; [reflexivity|]. split.
    + split; reflexivity.
    + discriminate.
Qed.

(** When the decoder run succeeds, [decodeToFloat32] returns one sample
    for every four bytes of its output, the [i]-th one made of the bytes
    [4i .. 4i+3] in little-endian order; up to three bytes at the end
    are ignored; and every sample is a valid binary32 value. *)
Theorem decoded_samples (inFile : string) (rate : Z)
  (st : St World) (stdout stderr : string) (w : World) :
  exec_Run "ffmpeg" (decode_args inFile rate) (world st)
  = (None, stdout, stderr, w) ->
  exists samples : list spec_float,
    decodeToFloat32' inFile rate st
    = Some ((samples, None),
            extend st w [ARun "ffmpeg" (decode_args inFile rate)])
    /\ List.length samples = (String.length stdout / 4)%nat
    /\ (forall i : nat,
          (i < String.length stdout / 4)%nat ->
          nth_error samples i = Some (sample_at (filepath.chars stdout) i))
    /\ Forall (fun x => valid_binary 24 128 x = true) samples.
Proof.
  intros Hrun. unfold decodeToFloat32. cbv beta zeta. rewrite Hrun.
  unfold bind, act, ret. cbn [world defaultLogger trace].
  rewrite read_samples_of. exists (samples_of stdout).
  split; [reflexivity|].
  assert (Hlen : List.length (filepath.chars stdout) = String.length stdout).
  { unfold filepath.chars. clear. induction stdout as [|c s IH]; cbn; congruence. }
  pose proof (Nat.Div0.mul_div_le (List.length (filepath.chars stdout)) 4) as Hle.
  destruct (read_samples_nth (List.length (filepath.chars stdout) / 4) 0
              (filepath.chars stdout) ltac:(lia)) as [Hl Hn].
  fold (samples_of stdout) in Hl, Hn. rewrite Hlen in Hl, Hn.
  split; [exact Hl|]. split; [exact Hn|].
  apply Forall_forall. intros x Hx.
  apply In_nth_error in Hx. destruct Hx as [i Hi].
  assert (Hi' : (i < String.length stdout / 4)%nat).
  { rewrite <- Hl. apply nth_error_Some. congruence. }
  rewrite (Hn i Hi') in Hi. injection Hi as <-.
  apply Float32frombits_valid.
Qed.

(** ** One job, all its paths *)

Lemma condenseFile_paths (filePath : string) (options : CondenseOptions)
  (st : St World) :
  exists (w : World) (p : JobPath),
    condenseFile' filePath options st
    = Some (tt, extend st w (job_trace filePath options p))
    /\ path_ok p.
Proof.
  destruct (exec_Run "ffmpeg" (decode_args filePath sampleRate) (world st))
    as [[[derr stdout] stderr] w1] eqn:Hdec.
  destruct derr as [e|].
  { exists w1, (DecodeFailed e stderr). split; [|exact I].
    exact (condenseFile_decode_fails World exec_Run exec_CombinedOutput
             speech_NewDetector speech_Detect _ options _ _ _ _ _ Hdec). }
  destruct (speech_NewDetector (app_cfg options) w1) as [nerr w2] eqn:Hnew.
  destruct nerr as [e|].
  { exists w2, (DetectorFailed e). split; [|exact I].
    exact (condenseFile_detector_fails World exec_Run exec_CombinedOutput
             speech_NewDetector speech_Detect _ _ _ _ _ _ _ _ Hdec Hnew). }
  destruct (speech_Detect discard (app_cfg options) (samples_of stdout) w2)
    as [[ps [segs serr]] w3] eqn:Hdet.
  destruct serr as [e|].
  { exists w3, (DetectFailed e). split; [|exact I].
    exact (condenseFile_detect_fails World exec_Run exec_CombinedOutput
             speech_NewDetector speech_Detect _ _ _ _ _ _ _ _ _ _
             Hdec Hnew _ Hdet). }
  destruct segs as [|s0 rest].
  { exists w3, NoSpeech. split; [|exact I].
    exact (condenseFile_no_speech World exec_Run exec_CombinedOutput
             speech_NewDetector speech_Detect _ _ _ _ _ _ _ _ _
             Hdec Hnew Hdet). }
  destruct (exec_CombinedOutput "ffmpeg"
              (export_args filePath (af (s0 :: rest))
                 (outName filePath (OutputDir options) (OutputSuffix options)
                    (OutputFormat options))) w3)
    as [[output xerr] w4] eqn:Hexp.
  exists w4, (Exported (s0 :: rest) output xerr). split; [|discriminate].
  refine (condenseFile_exports World exec_Run exec_CombinedOutput
            speech_NewDetector speech_Detect _ _ _ _ _ _ _ _ _ _
            Hdec Hnew _ _ _ Hdet _ Hexp).
  discriminate.
Qed.

(** An error of a job is never the empty message, so the error event's
    text is never dropped, and its beginning tells the stage that
    failed: a job that fails after its [exporting] event failed in the
    encoder, one that fails after [detecting] failed in the detector or
    found no speech, one that fails after [loading] failed in the
    decoder. *)
Theorem job_errors_name_their_stage (filePath : string)
  (options : CondenseOptions) (st : St World) :
  exists (st' : St World) (reached : nat) (err : error),
    condenseFile' filePath options st = Some (tt, st')
    /\ emitted (since st st') = job_events filePath reached err
    /\ err <> Some ""
    /\ forall msg : string,
        err = Some msg ->
        match reached with
        | 2%nat => exists rest, msg = "failed to decode audio file: " ++ rest
        | 3%nat =>
            (exists rest, msg = "failed to create speech detector: " ++ rest)
            \/ (exists rest, msg = "speech detection failed: " ++ rest)
            \/ msg = "no speech detected in file: " ++ filePath
        | _ => exists rest, msg = "ffmpeg error: " ++ rest
        end.
Proof.
  destruct (condenseFile_paths filePath options st) as (w & p & Hrun & Hok).
  exists (extend st w (job_trace filePath options p)).
  rewrite since_extend.
  destruct p as [e errs|e|e| |segs output xerr].
  - exists 2%nat, (job_error filePath (DecodeFailed e errs)).
    repeat split; try assumption; try discriminate.
    intros msg Hm. injection Hm as <-. eexists. reflexivity.
  - exists 3%nat, (job_error filePath (DetectorFailed e)).
    repeat split; try assumption; try discriminate.
    intros msg Hm. injection Hm as <-. left. eexists. reflexivity.
  - exists 3%nat, (job_error filePath (DetectFailed e)).
    repeat split; try assumption; try discriminate.
    intros msg Hm. injection Hm as <-. right. left. eexists. reflexivity.
  - exists 3%nat, (job_error filePath NoSpeech).
    repeat split; try assumption; try discriminate.
    intros msg Hm. injection Hm as <-. right. right. reflexivity.
  - exists 4%nat, (job_error filePath (Exported segs output xerr)).
    repeat split; try assumption.
    + destruct xerr; discriminate.
    + intros msg Hm. destruct xerr as [e|]; [|discriminate].
      injection Hm as <-. eexists. reflexivity.
Qed.

(** Once the detector is created it is destroyed exactly once, whatever
    detection and the export return: [Destroy] is the last thing the job
    does before its terminal event, after the detector's run and after
    the export if there is one. *)
Theorem created_detector_is_destroyed (filePath : string)
  (options : CondenseOptions) (st : St World)
  (stdout stderr : string) (w1 w2 : World) :
  exec_Run "ffmpeg" (decode_args filePath sampleRate) (world st)
  = (None, stdout, stderr, w1) ->
  speech_NewDetector (app_cfg options) w1 = (None, w2) ->
  exists (st' : St World) (before : list Action) (err : error),
    condenseFile' filePath options st = Some (tt, st')
    /\ since st st' = (before ++ [ADestroy; emit_terminal filePath err])%list
    /\ filter is_destroy before = []
    /\ filter is_new_detector before = [ANewDetector]
    /\ detect_loggers before = [discard].
Proof.
  intros Hdec Hnew.
  set (used := [emit_status filePath "pending"; emit_status filePath "loading";
                ARun "ffmpeg" (decode_args filePath sampleRate);
                emit_status filePath "detecting"; ANewDetector; ADetect discard]).
  destruct (speech_Detect discard (app_cfg options) (samples_of stdout) w2)
    as [[ps [segs serr]] w3] eqn:Hdet.
  destruct serr as [e|].
  { eexists _, used, _. split.
    - exact (condenseFile_detect_fails World exec_Run exec_CombinedOutput
               speech_NewDetector speech_Detect _ _ _ _ _ _ _ _ _ _
               Hdec Hnew _ Hdet).
    - rewrite since_extend. repeat split. }
  destruct segs as [|s0 rest].
  { eexists _, used, _. split.
    - exact (condenseFile_no_speech World exec_Run exec_CombinedOutput
               speech_NewDetector speech_Detect _ _ _ _ _ _ _ _ _
               Hdec Hnew Hdet).
    - rewrite since_extend. repeat split. }
  destruct (exec_CombinedOutput "ffmpeg"
              (export_args filePath (af (s0 :: rest))
                 (outName filePath (OutputDir options) (OutputSuffix options)
                    (OutputFormat options))) w3)
    as [[output xerr] w4] eqn:Hexp.
  eexists _,
    (used ++ [emit_status filePath "exporting";
              ACombinedOutput "ffmpeg"
                (export_args filePath (af (s0 :: rest))
                   (outName filePath (OutputDir options) (OutputSuffix options)
                      (OutputFormat options)))])%list, _.
  split.
  - refine (condenseFile_exports World exec_Run exec_CombinedOutput
              speech_NewDetector speech_Detect _ _ _ _ _ _ _ _ _ _
              Hdec Hnew _ _ _ Hdet _ Hexp).
    discriminate.
  - rewrite since_extend. repeat split.
Qed.

(** A job runs the decoder once, on its file, and the export at most
    once, on the same file; it ends completed only if the export was
    run, and what is exported is a non-empty list of segments. *)
Theorem completed_only_after_export (filePath : string)
  (options : CondenseOptions) (st : St World) :
  exists st' : St World,
    condenseFile' filePath options st = Some (tt, st')
    /\ decoded_files (since st st') = [filePath]
    /\ (exports (since st st') = []
        \/ exists segs : list Segment,
            segs <> []
            /\ exports (since st st')
               = [["-y"; "-i"; filePath; "-vn"; "-af"; af segs;
                   outName filePath (OutputDir options) (OutputSuffix options)
                     (OutputFormat options)]])
    /\ (In (terminal_event filePath None) (emitted (since st st')) ->
        exports (since st st') <> []).
Proof.
  destruct (condenseFile_paths filePath options st) as (w & p & Hrun & Hok).
  exists (extend st w (job_trace filePath options p)).
  rewrite since_extend. split; [exact Hrun|].
  destruct p as [e errs|e|e| |segs output xerr]; cbn in Hok |- *.
  1-4: (split; [reflexivity|]; split; [left; reflexivity|];
        intros H; repeat (destruct H as [H|H]; [discriminate H|]);
        destruct H).
  split; [reflexivity|]. split; [|discriminate].
  right. exists segs. split; [exact Hok|reflexivity].
Qed.

(** Every call a job makes runs under the status announced for it: the
    decoder after the [loading] event, the detector's creation and run
    after [detecting], the export after [exporting]; the detector is
    destroyed before the terminal event, so under [detecting] or
    [exporting]. *)
Theorem calls_run_under_their_stage (filePath : string)
  (options : CondenseOptions) (st : St World) :
  exists st' : St World,
    condenseFile' filePath options st = Some (tt, st')
    /\ forallb stage_ok (under_status "" (since st st')) = true
    /\ map snd (under_status "" (since st st'))
       = filter (fun a => negb (is_emit a)) (since st st').
Proof.
  destruct (condenseFile_paths filePath options st) as (w & p & Hrun & _).
  exists (extend st w (job_trace filePath options p)).
  rewrite since_extend. split; [exact Hrun|].
  destruct p; split; reflexivity.
Qed.

(** ** Batches *)

Lemma job_events_files (filePath : string) (reached : nat) (err : error) :
  Forall (fun d => FilePath d = filePath) (job_events filePath reached err).
Proof.
  unfold job_events. apply Forall_app. split.
  - apply Forall_forall. intros d Hd. apply in_map_iff in Hd.
    destruct Hd as (s & <- & _). reflexivity.
  - constructor; [destruct err; reflexivity|constructor].
Qed.

Lemma job_events_length (filePath : string) (reached : nat) (err : error) :
  job_shape reached err ->
  (3 <= List.length (job_events filePath reached err) <= 5)%nat.
Proof.
  intros [[Hlo Hhi] _]. unfold job_events.
  rewrite length_app, length_map, length_firstn. cbn [List.length stages].
  lia.
Qed.

(** A batch emits events for the files of its list only, between three
    and five for each, and leaves the default logger as it found it. *)
Theorem batch_events_are_for_listed_files (filePaths : list string)
  (options : CondenseOptions) (st : St World) :
  exists st' : St World,
    CondenseFiles' filePaths options st = Some (tt, st')
    /\ Forall (fun d => In (FilePath d) filePaths) (emitted (since st st'))
    /\ (3 * List.length filePaths
        <= List.length (emitted (since st st'))
        <= 5 * List.length filePaths)%nat
    /\ defaultLogger st' = defaultLogger st.
Proof.
  destruct (CondenseFiles_total World exec_Run exec_CombinedOutput
              speech_NewDetector speech_Detect options filePaths st)
    as (w & acts & runs & Hrun & Hf & Hok & Hev & _).
  exists (extend st w acts). split; [exact Hrun|].
  rewrite since_extend, Hev, <- Hf.
  split; [|split; [|reflexivity]].
  - clear - Hok. induction runs as [|j runs IH]; [constructor|].
    cbn [flat_map map]. apply Forall_app. split.
    + eapply Forall_impl; [|apply job_events_files].
      intros d Hd. left. symmetry. exact Hd.
    + inversion Hok; subst. eapply Forall_impl; [|now apply IH].
      intros d Hd. right. exact Hd.
  - clear - Hok. induction Hok as [|j runs Hj _ IH]; [cbn; lia|].
    cbn [flat_map map]. rewrite length_app.
    pose proof (job_events_length (job_file j) _ _ Hj) as Hl.
    change (job_stream j) with (job_events (job_file j) (job_reached j) (job_err j)).
    change (List.length (job_file j :: map job_file runs))
      with (S (List.length (map job_file runs))).
    lia.
Qed.

(** ** The front end after a batch *)

Lemma condenseFile_total_strong (filePath : string)
  (options : CondenseOptions) (st : St World) :
  exists (w : World) (acts : list Action) (reached : nat) (err : error),
    condenseFile' filePath options st = Some (tt, extend st w acts)
    /\ emitted acts = job_events filePath reached err
    /\ job_shape reached err
    /\ err <> Some "".
Proof.
  destruct (condenseFile_paths filePath options st) as (w & p & Hrun & Hok).
  exists w, (job_trace filePath options p).
  destruct p as [e errs|e|e| |segs output xerr].
  - exists 2%nat, (job_error filePath (DecodeFailed e errs)).
    repeat split; try assumption; try discriminate; lia.
  - exists 3%nat, (job_error filePath (DetectorFailed e)).
    repeat split; try assumption; try discriminate; lia.
  - exists 3%nat, (job_error filePath (DetectFailed e)).
    repeat split; try assumption; try discriminate; lia.
  - exists 3%nat, (job_error filePath NoSpeech).
    repeat split; try assumption; try discriminate; lia.
  - exists 4%nat, (job_error filePath (Exported segs output xerr)).
    repeat split; try assumption; try lia.
    destruct xerr; discriminate.
Qed.

Lemma CondenseFiles_total_strong (options : CondenseOptions)
  (filePaths : list string) :
  forall st : St World,
  exists (w : World) (acts : list Action) (runs : list JobRun),
    CondenseFiles' filePaths options st = Some (tt, extend st w acts)
    /\ map job_file runs = filePaths
    /\ Forall (fun j => job_ok j /\ job_err j <> Some "") runs
    /\ emitted acts = flat_map job_stream runs.
Proof.
  induction filePaths as [|f rest IH]; intros st.
  - exists (world st), [], []. repeat split; [|constructor].
    unfold extend. rewrite app_nil_r. destruct st; reflexivity.
  - destruct (condenseFile_total_strong f options st)
      as (w1 & a1 & reached & err & Hrun & Hev & Hshape & Hne).
    destruct (IH (extend st w1 a1)) as (w2 & a2 & runs & Hrest & Hf & Hok & Hev2).
    exists w2, (a1 ++ a2)%list,
      ({| job_file := f; job_reached := reached; job_err := err |} :: runs).
    split.
    { change (CondenseFiles' (f :: rest) options st)
        with (bind World (condenseFile' f options)
                (fun _ => CondenseFiles' rest options) st).
      unfold bind. rewrite Hrun, Hrest, extend_extend. reflexivity. }
    split; [cbn [map job_file]; now rewrite Hf|].
    split; [constructor; [split; assumption|exact Hok]|].
    rewrite emitted_app, Hev, Hev2. reflexivity.
Qed.

Lemma item_after_job (j : JobRun) (f : frontend.FileItem) :
  job_err j <> Some "" ->
  job_file j = frontend.path f ->
  frontend.settled (frontend.item_after (job_stream j) f).
Proof.
  intros Hne Hfile. unfold job_stream, job_events.
  rewrite item_after_app.
  set (g := frontend.item_after _ f).
  assert (Hg : frontend.path g = frontend.path f) by apply item_after_same.
  rewrite item_after_cons. cbn [frontend.item_after fold_left].
  assert (E : String.eqb (frontend.path g)
                (FilePath (terminal_event (job_file j) (job_err j))) = true).
  { apply String.eqb_eq. rewrite Hg, <- Hfile. destruct (job_err j); reflexivity. }
  rewrite E. unfold frontend.settled. cbn [frontend.status frontend.error].
  destruct (job_err j) as [e|].
  - right. split; [reflexivity|]. exists e.
    assert (e <> "") by congruence.
    split; [assumption|]. unfold frontend.data_error. cbn [terminal_event Error].
    apply String.eqb_neq in H. now rewrite H.
  - left. split; reflexivity.
Qed.

Lemma item_after_jobs (runs : list JobRun) :
  Forall (fun j => job_ok j /\ job_err j <> Some "") runs ->
  forall f : frontend.FileItem,
    frontend.settled f \/ In (frontend.path f) (map job_file runs) ->
    frontend.settled (frontend.item_after (flat_map job_stream runs) f).
Proof.
  induction 1 as [|j runs [_ Hne] _ IH]; intros f Hf.
  - destruct Hf as [Hf|[]]. exact Hf.
  - cbn [flat_map]. rewrite item_after_app.
    destruct (string_dec (job_file j) (frontend.path f)) as [Heq|Hneq].
    + apply IH. left. now apply item_after_job.
    + rewrite (item_after_other (job_stream j) f).
      * apply IH. destruct Hf as [Hf|[Hf|Hf]]; [now left|congruence|now right].
      * eapply Forall_impl; [|apply job_events_files].
        intros d Hd. cbn beta in Hd. congruence.
Qed.

(** After [handleCondense] on a list that is not empty and not being
    processed, with the events the batch emits for the paths of the
    list, every file of the list is settled: completed without an error
    text or in error with one; none is left pending, loading, detecting
    or exporting; the files are the same, in the same order, and the
    processing flag is down. *)
Theorem batch_settles_every_file (files : list frontend.FileItem)
  (settings : CondenseOptions) (st : St World) :
  files <> [] ->
  exists st' : St World,
    CondenseFiles' (map frontend.path files) settings st = Some (tt, st')
    /\ snd (frontend.handleCondense files false (emitted (since st st')))
       = false
    /\ map frontend.path
         (fst (frontend.handleCondense files false (emitted (since st st'))))
       = map frontend.path files
    /\ map frontend.name
         (fst (frontend.handleCondense files false (emitted (since st st'))))
       = map frontend.name files
    /\ Forall frontend.settled
         (fst (frontend.handleCondense files false (emitted (since st st')))).
Proof.
  intros Hne.
  destruct (CondenseFiles_total_strong settings (map frontend.path files) st)
    as (w & acts & runs & Hrun & Hf & Hok & Hev).
  exists (extend st w acts). split; [exact Hrun|].
  rewrite since_extend, Hev. unfold frontend.handleCondense.
  assert (E : (List.length files =? 0)%nat = false)
    by (destruct files; [congruence|reflexivity]).
  rewrite E. cbn [orb fst snd]. split; [reflexivity|].
  rewrite deliver_map, !map_map.
  assert (Hreset : forall f, frontend.path f = frontend.path f) by reflexivity.
  split; [|split].
  - unfold frontend.resetPending. rewrite map_map. apply map_ext.
    intros f. now destruct (item_after_same (flat_map job_stream runs)
                              {| frontend.path := frontend.path f;
                                 frontend.name := frontend.name f;
                                 frontend.status := "pending";
                                 frontend.error := None |}).
  - unfold frontend.resetPending. rewrite map_map. apply map_ext.
    intros f. now destruct (item_after_same (flat_map job_stream runs)
                              {| frontend.path := frontend.path f;
                                 frontend.name := frontend.name f;
                                 frontend.status := "pending";
                                 frontend.error := None |}).
  - apply Forall_forall. intros g Hg. apply in_map_iff in Hg.
    destruct Hg as (f & <- & Hin).
    apply item_after_jobs; [exact Hok|]. right. rewrite Hf.
    unfold frontend.resetPending in Hin. apply in_map_iff in Hin.
    destruct Hin as (f0 & <- & Hin0). cbn [frontend.path].
    now apply in_map.
Qed.

End MoreFacts.

(** ** Instances in the scripted world *)

Example printProgress_examples :
  option_map String.length
    (cli.printProgress (fun _ => (- 2 ^ 63)%Z) (f64 1 (-1))) = Some 104%nat
  /\ cli.filled (fun _ => (- 2 ^ 63)%Z) (f64 1 (-1)) = 20%Z
  /\ cli.filled (fun _ => (- 2 ^ 63)%Z) (f64 3 0) = 40%Z
  /\ cli.printProgress (fun _ => (- 2 ^ 63)%Z) (f64 (-1) (-1)) = None
  /\ cli.printProgress (fun _ => (- 2 ^ 63)%Z) (f64 1 70) = None
  /\ cli.filled (fun _ => (2 ^ 63 - 1)%Z) (f64 1 70) = 40%Z.
Proof. repeat split; vm_compute; reflexivity. Qed.

Lemma decode_fails_only_with_ffmpeg_witness :
  script_Run "ffmpeg" (decode_args "missing.wav" sampleRate) []
  = (Some "exit status 1", "", "No such file or directory", [])
  /\ decodeToFloat32 Script script_Run "missing.wav" sampleRate (start [])
     = Some (([], Some "ffmpeg decode error: exit status 1, stderr: No such file or directory"),
             extend (start []) [] [ARun "ffmpeg" (decode_args "missing.wav" sampleRate)]).
Proof.
  assert (H : script_Run "ffmpeg" (decode_args "missing.wav" sampleRate)
                (world (start []))
              = (Some "exit status 1", "", "No such file or directory", []))
    by reflexivity.
  split; [exact H|].
  destruct (decode_fails_only_with_ffmpeg Script script_Run "missing.wav"
              sampleRate (start []) _ _ _ _ H) as (samples & err & Hrun & _ & Hf).
  destruct (Hf _ eq_refl) as [-> ->]. exact Hrun.
Defined.

Lemma decoded_samples_witness :
  script_Run "ffmpeg" (decode_args "a.wav" sampleRate) []
  = (None, "abcdefgh", "", [])
  /\ exists samples : list spec_float,
      decodeToFloat32 Script script_Run "a.wav" sampleRate (start [])
      = Some ((samples, None),
              extend (start []) [] [ARun "ffmpeg" (decode_args "a.wav" sampleRate)])
      /\ List.length samples = 2%nat.
Proof.
  assert (H : script_Run "ffmpeg" (decode_args "a.wav" sampleRate)
                (world (start []))
              = (None, "abcdefgh", "", [])) by reflexivity.
  split; [exact H|].
  destruct (decoded_samples Script script_Run "a.wav" sampleRate (start [])
              _ _ _ H) as (samples & Hrun & Hlen & _).
  exists samples. split; [exact Hrun|exact Hlen].
Defined.

Lemma created_detector_is_destroyed_witness :
  script_Run "ffmpeg" (decode_args "a.wav" sampleRate) [[seg 1 2]]
  = (None, "abcdefgh", "", [[seg 1 2]])
  /\ script_NewDetector (app_cfg options0) [[seg 1 2]] = (None, [[seg 1 2]])
  /\ exists (st' : St Script) (before : list Action) (err : error),
      script_condenseFile "a.wav" options0 (start [[seg 1 2]]) = Some (tt, st')
      /\ since (start [[seg 1 2]]) st'
         = (before ++ [ADestroy; emit_terminal "a.wav" err])%list
      /\ filter is_destroy before = [].
Proof.
  assert (H1 : script_Run "ffmpeg" (decode_args "a.wav" sampleRate)
                 (world (start [[seg 1 2]]))
               = (None, "abcdefgh", "", [[seg 1 2]])) by reflexivity.
  assert (H2 : script_NewDetector (app_cfg options0) [[seg 1 2]]
               = (None, [[seg 1 2]])) by reflexivity.
  split; [exact H1|]. split; [exact H2|].
  destruct (created_detector_is_destroyed Script script_Run
              script_CombinedOutput script_NewDetector script_Detect
              "a.wav" options0 (start [[seg 1 2]]) _ _ _ _ H1 H2)
    as (st' & before & err & Hrun & Hs & Hd & _).
  exists st', before, err. repeat split; assumption.
Defined.

Lemma GetFileName_of_joined_witness :
  has_sep "song.wav" = false
  /\ "song.wav" <> ""
  /\ GetFileName ("/a/b" ++ "/" ++ "song.wav") = "song.wav".
Proof.
  assert (H1 : has_sep "song.wav" = false) by reflexivity.
  assert (H2 : "song.wav" <> "") by discriminate.
  split; [exact H1|]. split; [exact H2|].
  exact (proj1 (GetFileName_of_joined "/a/b" "song.wav" H1 H2)).
Defined.

Lemma output_lands_in_the_directory_witness :
  plain_name "song_condensed.mp3" = true
  /\ filepath.Base (outName "/a/b/song.wav" "" "_condensed" "mp3")
     = "song_condensed.mp3".
Proof.
  split; [reflexivity|].
  pose proof (output_lands_in_the_directory "/a/b/song.wav" "" "_condensed" "mp3")
    as H.
  cbv zeta in H. exact (proj2 (H eq_refl)).
Defined.

Lemma drop_keeps_the_list_well_formed_witness :
  frontend.well_formed []
  /\ frontend.well_formed
       (frontend.handleDrop ["/a/x.wav"; "/a/x.wav"; "y.wav"] []).
Proof.
  assert (H : frontend.well_formed []) by (split; constructor).
  split; [exact H|].
  exact (proj1 (drop_keeps_the_list_well_formed
                  ["/a/x.wav"; "/a/x.wav"; "y.wav"] [] H)).
Defined.

Lemma browse_keeps_the_list_well_formed_witness :
  frontend.well_formed (frontend.handleDrop ["/a/x.wav"] [])
  /\ NoDup ["/a/x.wav"; "b.wav"]
  /\ frontend.well_formed
       (frontend.handleBrowseFiles ["/a/x.wav"; "b.wav"]
          (frontend.handleDrop ["/a/x.wav"] [])).
Proof.
  assert (H1 : frontend.well_formed (frontend.handleDrop ["/a/x.wav"] [])).
  { split; repeat constructor; cbn; intuition discriminate. }
  assert (H2 : NoDup ["/a/x.wav"; "b.wav"]).
  { repeat constructor; cbn; intuition discriminate. }
  split; [exact H1|]. split; [exact H2|].
  exact (proj1 (browse_keeps_the_list_well_formed _ _ H1 H2)).
Defined.

Lemma batch_settles_every_file_witness :
  frontend.handleDrop ["a.wav"; "quiet.wav"] [] <> []
  /\ exists st' : St Script,
      script_CondenseFiles
        (map frontend.path (frontend.handleDrop ["a.wav"; "quiet.wav"] []))
        options0 (start [[seg 1 2]; []]) = Some (tt, st')
      /\ Forall frontend.settled
           (fst (frontend.handleCondense
                   (frontend.handleDrop ["a.wav"; "quiet.wav"] []) false
                   (emitted (since (start [[seg 1 2]; []]) st')))).
Proof.
  assert (H : frontend.handleDrop ["a.wav"; "quiet.wav"] [] <> [])
    by discriminate.
  split; [exact H|].
  destruct (batch_settles_every_file Script script_Run script_CombinedOutput
              script_NewDetector script_Detect
              (frontend.handleDrop ["a.wav"; "quiet.wav"] []) options0
              (start [[seg 1 2]; []]) H) as (st' & Hrun & _ & _ & _ & Hs).
  exists st'. split; assumption.
Defined.

Lemma progress_bar_of_a_fraction_witness :
  not_negative (f64 1 (-1)) = true
  /\ cli.representable (cli.mul (f64 cli.width 0) (f64 1 (-1))) = true
  /\ exists out : string,
      cli.printProgress (fun _ => (- 2 ^ 63)%Z) (f64 1 (-1)) = Some out.
Proof.
  assert (H1 : not_negative (f64 1 (-1)) = true) by reflexivity.
  assert (H2 : cli.representable (cli.mul (f64 cli.width 0) (f64 1 (-1))) = true)
    by (vm_compute; reflexivity).
  split; [exact H1|]. split; [exact H2|].
  exact (proj2 (progress_bar_of_a_fraction (fun _ => (- 2 ^ 63)%Z)
                  (f64 1 (-1)) H1 H2)).
Defined.
